(** * The conditional field-removal modifier ($diff)

    A shallow embedding of [src/mongo/db/ops/modifier_diff.cpp]
    (class [ModifierDiff], the prepare/apply/log convention) and of
    [src/mongo/db/update/diff_node.cpp] (class [DiffNode], the
    updateExistingElement/validateUpdate/logUpdate convention), together
    with the parts of the mutable BSON tree, of the path locator and of the
    field checker that the two modifiers call. *)

From Stdlib Require Import ZArith String Ascii List Lia.
From stdpp Require Import base option list.
Import ListNotations.

Set Warnings "-register-all".

Open Scope string_scope.
Open Scope Z_scope.
Open Scope list_scope.

(** ** Status values and control outcomes *)

(** [ErrorCodes::Error], restricted to the codes that the modifier and its
    collaborators produce. *)
Inductive ErrorCode : Type :=
| OK
| BadValue
| NonExistentPath
| PathNotViable
| IllegalOperation
| EmptyFieldName.

(** A [Status] is its code; the message text plays no role in control flow. *)
Definition Status : Type := ErrorCode.

Definition isOK (s : Status) : bool :=
  match s with OK => true | _ => false end.

#[global] Instance ErrorCode_eq_dec : EqDecision ErrorCode.
Proof. solve_decision. Defined.

(** How a call ends: it returns a value, it throws a status ([uassert],
    [uassertStatusOK]), or the process is brought down by a failed
    [invariant] / [invariantOK] / [dassert]. *)
Inductive Outcome (A : Type) : Type :=
| Returns (a : A)
| Throws (s : Status)
| Aborts.

Arguments Returns {A} a.
Arguments Throws {A} s.
Arguments Aborts {A}.

#[global] Instance Outcome_ret : MRet Outcome := fun A a => Returns a.

#[global] Instance Outcome_bind : MBind Outcome := fun A B k m =>
  match m with
  | Returns a => k a
  | Throws s => Throws s
  | Aborts => Aborts
  end.

(** [invariant(cond)]: abort unless the condition holds. *)
Definition invariant (cond : bool) : Outcome unit :=
  if cond then Returns tt else Aborts.

(** [invariantOK(status)]: abort unless the status is OK. *)
Definition invariantOK (s : Status) : Outcome unit :=
  invariant (isOK s).

(** [uassertStatusOK(status)]: throw the status unless it is OK. *)
Definition uassertStatusOK (s : Status) : Outcome unit :=
  if isOK s then Returns tt else Throws s.

(** [dassert(cond)]: an [invariant] that is compiled in debug builds only;
    [kDebugBuild] is the build flag. *)
Definition dassert (kDebugBuild : bool) (cond : bool) : Outcome unit :=
  if kDebugBuild then invariant cond else Returns tt.

(** [size_t] subtraction, with its wrap-around. *)
Definition size_t_sub (a b : nat) : Z := (Z.of_nat a - Z.of_nat b) mod 2 ^ 64.

(** ** BSON values *)

Inductive BSONType : Type :=
| EOO
| NumberInt
| StringType
| Object
| Array
| Bool
| jstNULL.

#[global] Instance BSONType_eq_dec : EqDecision BSONType.
Proof. solve_decision. Defined.

(** A value is a scalar or a container; the children of a container are
    named, also in an array (BSON stores an array as a sequence of keyed
    elements), and ordered. [VEOO] is the value of the default-constructed
    [BSONElement], for which [BSONElement::ok] is false. *)
Inductive Value : Type :=
| VEOO
| VNull
| VBool (b : bool)
| VInt (n : Z)
| VString (s : string)
| VObject (fields : list (string * Value))
| VArray (items : list (string * Value)).

(** A [BSONElement]: a field name and its value. *)
Abbreviation BSONElement := (string * Value)%type.

Definition fieldName (e : BSONElement) : string := fst e.
Definition value (e : BSONElement) : Value := snd e.

Definition elementOk (e : BSONElement) : bool :=
  match value e with VEOO => false | _ => true end.

Definition typeOf (v : Value) : BSONType :=
  match v with
  | VEOO => EOO
  | VNull => jstNULL
  | VBool _ => Bool
  | VInt _ => NumberInt
  | VString _ => StringType
  | VObject _ => Object
  | VArray _ => Array
  end.

Definition canonicalizeBSONType (t : BSONType) : Z :=
  match t with
  | EOO => 0
  | jstNULL => 5
  | NumberInt => 10
  | StringType => 15
  | Object => 20
  | Array => 25
  | Bool => 40
  end.

(** A collator orders two strings (negative, zero, positive). *)
Definition CollatorInterface : Type := string -> string -> Z.

Definition ofComparison (c : comparison) : Z :=
  match c with Eq => 0 | Lt => -1 | Gt => 1 end.

(** Binary string order, the order used when no collator is given. *)
Definition compareStringData (a b : string) : Z :=
  ofComparison (String.compare a b).

Definition compareStrings (comparator : option CollatorInterface) (a b : string) : Z :=
  match comparator with
  | Some c => c a b
  | None => compareStringData a b
  end.

(** Modelled from the spec: [compareElementValues] of the BSON library is
    not part of the sources covered here; this is the "type-aware three-way
    comparison" of section 4.3, with the collator applied to strings when
    one is passed and the field names of nested elements compared. *)
Fixpoint compareElementValues (comparator : option CollatorInterface)
    (l r : Value) {struct l} : Z :=
  let woCompareObj :=
    fix woCompareObj (ls rs : list (string * Value)) {struct ls} : Z :=
      match ls, rs with
      | [], [] => 0
      | [], _ :: _ => -1
      | _ :: _, [] => 1
      | (ln, lv) :: ls', (rn, rv) :: rs' =>
          let x := canonicalizeBSONType (typeOf lv) - canonicalizeBSONType (typeOf rv) in
          if negb (x =? 0) then x
          else
            let x := compareStringData ln rn in
            if negb (x =? 0) then x
            else
              let x := compareElementValues comparator lv rv in
              if negb (x =? 0) then x else woCompareObj ls' rs'
      end in
  match l, r with
  | VNull, VNull => 0
  | VBool a, VBool b => Z.b2z a - Z.b2z b
  | VInt a, VInt b => ofComparison (Z.compare a b)
  | VString a, VString b => compareStrings comparator a b
  | VObject ls, VObject rs => woCompareObj ls rs
  | VArray ls, VArray rs => woCompareObj ls rs
  | _, _ => 0
  end.

(** Modelled from the spec: [BSONElement::woCompare], absent from the
    sources covered here: canonical types first, then the field names when
    [considerFieldName] is set, then the values. *)
Definition woCompare (l r : BSONElement) (considerFieldName : bool)
    (comparator : option CollatorInterface) : Z :=
  let x := canonicalizeBSONType (typeOf (value l)) - canonicalizeBSONType (typeOf (value r)) in
  if negb (x =? 0) then x
  else
    let x := if considerFieldName then compareStringData (fieldName l) (fieldName r) else 0 in
    if negb (x =? 0) then x
    else compareElementValues comparator (value l) (value r).

(** ** The mutable document tree *)

Module mutablebson.

(** Modelled from the spec: the mutable BSON library is not among the
    sources covered here. Section 3: a document owns a rooted tree of
    elements; an element has a type, a value or an ordered list of children
    (keyed by name), and knows its parent and its place among its siblings. *)
Record Document : Type := mkDocument { rootValue : Value }.

(** An element is a handle into its document: the end sentinel, or the
    position of a node given by the child indices that lead to it from the
    document root (the root itself is [At []]). *)
Inductive Element : Type :=
| End
| At (p : list nat).

#[global] Instance Element_eq_dec : EqDecision Element.
Proof. solve_decision. Defined.

Definition ok (e : Element) : bool :=
  match e with End => false | At _ => true end.

Definition root (doc : Document) : Element := At [].
Definition end_ (doc : Document) : Element := End.

Definition childrenOf (v : Value) : list (string * Value) :=
  match v with
  | VObject k => k
  | VArray k => k
  | _ => []
  end.

Definition withChildren (v : Value) (kids : list (string * Value)) : Value :=
  match v with
  | VObject _ => VObject kids
  | VArray _ => VArray kids
  | _ => v
  end.

Fixpoint lookupFrom (e : BSONElement) (p : list nat) : option BSONElement :=
  match p with
  | [] => Some e
  | i :: p' =>
      match childrenOf (value e) !! i with
      | Some c => lookupFrom c p'
      | None => None
      end
  end.

(** The node an element stands for, if it is attached to the tree. *)
Definition resolve (doc : Document) (e : Element) : option BSONElement :=
  match e with
  | End => None
  | At p => lookupFrom (EmptyString, rootValue doc) p
  end.

(** Rewrite the child list of the container at position [p]. *)
Fixpoint alterAt (f : list (string * Value) -> list (string * Value))
    (p : list nat) (v : Value) : Value :=
  match p with
  | [] => withChildren v (f (childrenOf v))
  | i :: p' =>
      withChildren v (alter (fun c => (fst c, alterAt f p' (snd c))) i (childrenOf v))
  end.

Definition parent (e : Element) : Element :=
  match e with
  | End => End
  | At [] => End
  | At p => At (removelast p)
  end.

Definition getType (doc : Document) (e : Element) : BSONType :=
  match resolve doc e with
  | Some x => typeOf (value x)
  | None => EOO
  end.

Definition isType (doc : Document) (e : Element) (t : BSONType) : bool :=
  bool_decide (getType doc e = t).

Definition hasChildren (doc : Document) (e : Element) : bool :=
  match resolve doc e with
  | Some x => match childrenOf (value x) with [] => false | _ :: _ => true end
  | None => false
  end.

(** [Element::leftSibling] and [Element::rightSibling]: the neighbours in
    the parent's child list, or the end sentinel. *)
Definition leftSibling (doc : Document) (e : Element) : Element :=
  match e with
  | End => End
  | At p =>
      match last p with
      | Some (S i) => At (removelast p ++ [i])
      | _ => End
      end
  end.

Definition rightSibling (doc : Document) (e : Element) : Element :=
  match e with
  | End => End
  | At p =>
      match last p with
      | Some i =>
          let r := At (removelast p ++ [S i]) in
          match resolve doc r with Some _ => r | None => End end
      | None => End
      end
  end.

(** [Element::operator[](size_t n)]: the n-th child, or the end sentinel. *)
Definition findNthChild (doc : Document) (e : Element) (n : nat) : Element :=
  match e with
  | End => End
  | At p =>
      match resolve doc (At (p ++ [n])) with
      | Some _ => At (p ++ [n])
      | None => End
      end
  end.

Fixpoint indexOfName (name : string) (kids : list (string * Value)) : option nat :=
  match kids with
  | [] => None
  | (k, _) :: kids' =>
      if String.eqb k name then Some 0%nat else S <$> indexOfName name kids'
  end.

(** [Element::operator[](StringData name)]: the first child of that name,
    or the end sentinel. *)
Definition findFirstChildNamed (doc : Document) (e : Element) (name : string) : Element :=
  match e, resolve doc e with
  | At p, Some x =>
      match indexOfName name (childrenOf (value x)) with
      | Some i => At (p ++ [i])
      | None => End
      end
  | _, _ => End
  end.

(** Modelled from the spec: [Element::compareWithBSONElement] is not among
    the sources covered here. It compares the node the element stands for
    with [rhs]; calling it on an element that stands for no node violates
    its precondition. *)
Definition compareWithBSONElement (doc : Document) (e : Element) (rhs : BSONElement)
    (comparator : option CollatorInterface) (considerFieldName : bool) : Outcome Z :=
  match resolve doc e with
  | Some x => Returns (woCompare x rhs considerFieldName comparator)
  | None => Aborts
  end.

(** The document with the [k]-th child of the container at [pp] set to null,
    and with that child taken out. *)
Definition nulled (doc : Document) (pp : list nat) (k : nat) : Document :=
  mkDocument (alterAt (alter (fun c => (fst c, VNull)) k) pp (rootValue doc)).

Definition detached (doc : Document) (pp : list nat) (k : nat) : Document :=
  mkDocument (alterAt (delete k) pp (rootValue doc)).

(** Modelled from the spec: [Element::setValueNull] is not among the
    sources covered here. Section 4.4: the value is replaced with null in
    place, the element keeps its key and its position; the primitive fails
    only on an element that has no place in a parent. *)
Definition setValueNull (doc : Document) (e : Element) : Outcome (Status * Document) :=
  match e with
  | End => Aborts
  | At p =>
      match last p, resolve doc e with
      | Some i, Some _ =>
          Returns (OK, nulled doc (removelast p) i)
      | _, _ => Returns (IllegalOperation, doc)
      end
  end.

(** Modelled from the spec: [Element::remove] is not among the sources
    covered here. Section 4.4: the element is detached from its parent, value
    and key; the primitive signals failure when the element is not attached
    to a parent, which is the case of the document root. *)
Definition remove (doc : Document) (e : Element) : Outcome (Status * Document) :=
  match e with
  | End => Aborts
  | At p =>
      match last p, resolve doc e with
      | Some i, Some _ =>
          Returns (OK, detached doc (removelast p) i)
      | _, _ => Returns (IllegalOperation, doc)
      end
  end.

End mutablebson.

(** ** Dotted paths *)

Module FieldRef.

(** Modelled from the spec: [FieldRef] is not among the sources covered
    here. Section 3: the ordered sequence of the parts of a dotted path. *)
Definition t : Type := list string.

Fixpoint splitDots (s : string) (cur : string) : list string :=
  match s with
  | EmptyString => [cur]
  | String c s' =>
      if Ascii.eqb c "."%char then cur :: splitDots s' EmptyString
      else splitDots s' (cur ++ String c EmptyString)%string
  end.

(** [FieldRef::parse]: an empty string has no parts. *)
Definition parse (dotted : string) : t :=
  match dotted with
  | EmptyString => []
  | _ => splitDots dotted EmptyString
  end.

Definition numParts (f : t) : nat := length f.

Definition getPart (f : t) (i : nat) : string := default EmptyString (f !! i).

(** [FieldRef::setPart]; an index out of range leaves the path as it is. *)
Definition setPart (f : t) (i : nat) (part : string) : t := <[i := part]> f.

Definition dottedField (f : t) : string := String.concat "." f.

End FieldRef.

Module fieldchecker.

(** Modelled from the spec: the field checker is not among the sources
    covered here. Section 6 has it reject protected fields at init time;
    which fields are protected is not said there, and this model refuses only
    what cannot name a field: the empty path and a path with an empty part. *)
Definition isUpdatable (field : FieldRef.t) : Status :=
  match field with
  | [] => EmptyFieldName
  | _ => if existsb (fun part => String.eqb part EmptyString) field
         then EmptyFieldName else OK
  end.

Definition isPositionalPart (part : string) : bool := String.eqb part "$".

(** The scan of [isPositional]: [pos] is written at the first placeholder
    only, [count] is incremented at each. *)
Fixpoint scanPositional (parts : list string) (i : nat) (pos : nat) (count : nat)
    : nat * nat :=
  match parts with
  | [] => (pos, count)
  | part :: rest =>
      if isPositionalPart part
      then scanPositional rest (S i) (if Nat.eqb count 0 then i else pos) (S count)
      else scanPositional rest (S i) pos count
  end.

(** Modelled from the spec: [fieldchecker::isPositional] is not part of the
    sources covered here. As [ModifierDiff::init] uses it: it reports whether a
    placeholder part occurs, stores through [pos] the index of the first one
    (leaving [pos] as it was when there is none) and through [count] how many
    there are. *)
Definition isPositional (fieldRef : FieldRef.t) (pos : nat) : bool * nat * nat :=
  let '(pos', count) := scanPositional fieldRef 0 pos 0 in
  (negb (Nat.eqb count 0), pos', count).

End fieldchecker.

Module pathsupport.

Import mutablebson.

Definition isDigit (c : ascii) : bool :=
  let n := nat_of_ascii c in (Nat.leb 48 n && Nat.leb n 57)%bool.

Fixpoint parseDigits (s : string) (res : nat) : option nat :=
  match s with
  | EmptyString => Some res
  | String c s' =>
      if isDigit c then parseDigits s' (res * 10 + (nat_of_ascii c - 48))%nat
      else None
  end.

(** [isNumeric]: the part is made of decimal digits, and then its value. *)
Definition isNumeric (part : string) : option nat := parseDigits part 0.

(** The loop of [findLongestPrefix] over the parts that remain, from part
    number [i]; it yields the loop variables at the exit: the index, the
    current and the previous element and the viability flag. *)
Fixpoint walk (doc : Document) (parts : list string) (i : nat) (curr prev : Element)
    : nat * Element * Element * bool :=
  match parts with
  | [] => (i, curr, prev, true)
  | part :: rest =>
      let prev := curr in
      let '(curr, viable) :=
        match getType doc curr with
        | Object => (findFirstChildNamed doc prev part, true)
        | Array =>
            match isNumeric part with
            | Some n => (findNthChild doc prev n, true)
            | None => (curr, false)
            end
        | _ => (curr, false)
        end in
      if (negb (ok curr) || negb viable)%bool then (i, curr, prev, viable)
      else walk doc rest (S i) curr prev
  end.

(** Modelled from the spec: [pathsupport::findLongestPrefix] is not part of
    the sources covered here. Section 4.2: it walks the path from [root] and
    yields the index of the last part for which an element exists, and that
    element; when no part resolves it reports that the path does not exist;
    a part that would traverse a scalar (or index an array by a name) makes
    the path not viable. The two results are written through [idxFound] and
    [elemFound], which keep their values when the path does not exist. *)
Definition findLongestPrefix (prefix : FieldRef.t) (doc : Document) (root : Element)
    (idxFound : nat) (elemFound : Element) : Status * nat * Element :=
  if (negb (hasChildren doc root) || Nat.eqb (FieldRef.numParts prefix) 0)%bool
  then (NonExistentPath, idxFound, elemFound)
  else
    let '(i, curr, prev, viable) := walk doc prefix 0 root root in
    if Nat.eqb i 0 then (NonExistentPath, idxFound, elemFound)
    else if negb viable then (PathNotViable, (i - 1)%nat, prev)
    else if ok curr then (OK, (i - 1)%nat, curr)
    else (OK, (i - 1)%nat, prev).

End pathsupport.

(** ** The change log *)

Module LogBuilder.

(** Modelled from the spec: the log builder is not among the sources
    covered here. Section 6: the sink takes "unset at path P" entries and
    answers with a result; [accepting] says whether the sink takes entries. *)
Record t : Type := mk { unsets : list string; accepting : bool }.

Definition addToUnsets (lb : t) (path : string) : Status * t :=
  if accepting lb
  then (OK, mk (unsets lb ++ [path]) (accepting lb))
  else (IllegalOperation, lb).

End LogBuilder.

(** ** [ModifierDiff]: the prepare / apply / log convention *)

Module ModifierDiff.

Import mutablebson.

(** [ModifierDiff::PreparedState]; the document it refers to is passed along
    with it. *)
Record PreparedState : Type := mkPreparedState {
  idxFound : nat;
  elemFound : Element;
  noOp : bool
}.

Definition newPreparedState (targetDoc : Document) : PreparedState :=
  mkPreparedState 0 (end_ targetDoc) false.

(** [ModifierInterface::ExecInfo], the fields that [prepare] writes. *)
Record ExecInfo : Type := mkExecInfo {
  fieldRef0 : option FieldRef.t;
  execNoOp : bool
}.

(** [ModifierInterface::Options]. *)
Record Options : Type := mkOptions {
  fromReplication : bool;
  enforceOkForStorage : bool;
  collator : option CollatorInterface
}.

Record t : Type := mk {
  _updatePath : FieldRef.t;
  _pathReplacementPosition : nat;
  _val : BSONElement;
  _preparedState : option PreparedState
}.

(** [ModifierDiff::ModifierDiff()]. *)
Definition new : t := mk [] 0 (EmptyString, VEOO) None.

(** [ModifierDiff::init]; [positional] is the value behind the pointer of
    that name, before and after the call. *)
Definition init (m : t) (modExpr : BSONElement) (opts : Options) (positional : bool)
    : Status * t * bool :=
  let m := mk (FieldRef.parse (fieldName modExpr)) (_pathReplacementPosition m)
              (_val m) (_preparedState m) in
  let status := fieldchecker.isUpdatable (_updatePath m) in
  if negb (isOK status) then (status, m, positional)
  else
    let '(foundDollar, pos, foundCount) :=
      fieldchecker.isPositional (_updatePath m) (_pathReplacementPosition m) in
    let m := mk (_updatePath m) pos (_val m) (_preparedState m) in
    let positional := foundDollar in
    if (foundDollar && Nat.ltb 1 foundCount)%bool then (BadValue, m, positional)
    else (OK, mk (_updatePath m) (_pathReplacementPosition m) modExpr (_preparedState m),
          positional).

(** The local [destExists] of [prepare]. *)
Definition destExists (m : t) (idx : nat) (elem : Element) : bool :=
  (ok elem && Z.eqb (Z.of_nat idx) (size_t_sub (FieldRef.numParts (_updatePath m)) 1))%bool.

(** [ModifierDiff::prepare]. The document is only read. *)
Definition prepare (m : t) (doc : Document) (root : Element) (matchedField : string)
    (execInfo : ExecInfo) : Outcome (Status * t * ExecInfo) :=
  let m := mk (_updatePath m) (_pathReplacementPosition m) (_val m)
              (Some (newPreparedState doc)) in
  let positional := negb (Nat.eqb (_pathReplacementPosition m) 0) in
  if (positional && String.eqb matchedField EmptyString)%bool
  then Returns (BadValue, m, execInfo)
  else
    let m :=
      if positional
      then mk (FieldRef.setPart (_updatePath m) (_pathReplacementPosition m) matchedField)
              (_pathReplacementPosition m) (_val m) (_preparedState m)
      else m in
    let ps := newPreparedState doc in
    let '(status, idx, elem) :=
      pathsupport.findLongestPrefix (_updatePath m) doc root (idxFound ps) (elemFound ps) in
    if bool_decide (status = NonExistentPath) || isOK status
    then
      let elem := if bool_decide (status = NonExistentPath) then end_ doc else elem in
      let execInfo := mkExecInfo (Some (_updatePath m)) (execNoOp execInfo) in
      if negb (destExists m idx elem)
      then Returns (OK,
                    mk (_updatePath m) (_pathReplacementPosition m) (_val m)
                       (Some (mkPreparedState idx elem true)),
                    mkExecInfo (fieldRef0 execInfo) true)
      else
        compareVal ← compareWithBSONElement doc elem (_val m) None false;
        let n := negb (Z.eqb compareVal 0) in
        Returns (OK,
                 mk (_updatePath m) (_pathReplacementPosition m) (_val m)
                    (Some (mkPreparedState idx elem n)),
                 mkExecInfo (fieldRef0 execInfo) n)
    else
      Returns (status,
               mk (_updatePath m) (_pathReplacementPosition m) (_val m)
                  (Some (mkPreparedState idx elem false)),
               execInfo).

(** [ModifierDiff::apply]. Before any [prepare] there is no prepared state
    to read, and the call does not return. *)
Definition apply (kDebugBuild : bool) (m : t) (doc : Document)
    : Outcome (Status * Document) :=
  match _preparedState m with
  | None => Aborts
  | Some ps =>
      _ ← dassert kDebugBuild (negb (noOp ps));
      if (ok (parent (elemFound ps))
          && bool_decide (getType doc (parent (elemFound ps)) = Array))%bool
      then setValueNull doc (elemFound ps)
      else remove doc (elemFound ps)
  end.

(** [ModifierDiff::log]. *)
Definition log (m : t) (logBuilder : LogBuilder.t) : Outcome (Status * LogBuilder.t) :=
  Returns (LogBuilder.addToUnsets logBuilder (FieldRef.dottedField (_updatePath m))).

End ModifierDiff.

(** ** Storage validation *)

Module storage_validation.

Import mutablebson.

(** One call of [storage_validation::storageValid]: the element, the second
    argument and the recursion level. *)
Record Call : Type := mkCall {
  elem : Element;
  deep : bool;
  recursionLevel : nat
}.

(** A computation that may validate elements: it extends the list of the
    calls made so far and ends as an [Outcome]. *)
Definition Validating (A : Type) : Type := list Call -> Outcome A * list Call.

Definition vret {A : Type} (a : A) : Validating A := fun calls => (Returns a, calls).

Definition vbind {A B : Type} (m : Validating A) (k : A -> Validating B) : Validating B :=
  fun calls =>
    match m calls with
    | (Returns a, calls') => k a calls'
    | (Throws s, calls') => (Throws s, calls')
    | (Aborts, calls') => (Aborts, calls')
    end.

Definition lift {A : Type} (o : Outcome A) : Validating A := fun calls => (o, calls).

(** Modelled from the spec: the structural validator is not part of the
    sources covered here (section 6: validate(element, flag, recursionLevel)).
    The rules themselves are a parameter, [rules]; a refused element makes
    the validator throw. Every call is recorded. *)
Definition storageValid (rules : Call -> Status) (e : Element) (deep : bool)
    (recursionLevel : nat) : Validating unit :=
  fun calls =>
    let c := mkCall e deep recursionLevel in
    (uassertStatusOK (rules c), calls ++ [c]).

End storage_validation.

(** ** [DiffNode]: the updateExistingElement / validateUpdate / logUpdate
    convention *)

Module DiffNode.

Import mutablebson.
Import storage_validation.

(** [ModifierNode::ModifyResult]. *)
Inductive ModifyResult : Type :=
| kNoOp
| kNormalUpdate
| kCreated
| kArrayAppendUpdate.

#[global] Instance ModifyResult_eq_dec : EqDecision ModifyResult.
Proof. solve_decision. Defined.

Record t : Type := mk { _val : BSONElement }.

(** [DiffNode::DiffNode()]. *)
Definition new : t := mk (EmptyString, VEOO).

(** [DiffNode::init]. *)
Definition init (node : t) (modExpr : BSONElement) : Outcome (Status * t) :=
  _ ← invariant (elementOk modExpr);
  Returns (OK, mk modExpr).

(** [DiffNode::setCollator]: the body is empty. *)
Definition setCollator (node : t) (collator : option CollatorInterface) : t := node.

(** [DiffNode::allowNonViablePath]. *)
Definition allowNonViablePath (node : t) : bool := true.

(** [DiffNode::updateExistingElement]. *)
Definition updateExistingElement (node : t) (doc : Document) (element : Element)
    (elementPath : FieldRef.t) : Outcome (ModifyResult * Document) :=
  compareVal ← compareWithBSONElement doc element (_val node) None false;
  if negb (Z.eqb compareVal 0) then Returns (kNoOp, doc)
  else
    let parent := parent element in
    _ ← invariant (ok parent);
    doc' ← (if negb (isType doc parent Array)
            then
              r ← remove doc element;
              _ ← invariantOK (fst r);
              Returns (snd r)
            else
              r ← setValueNull doc element;
              _ ← invariantOK (fst r);
              Returns (snd r));
    Returns (kNormalUpdate, doc').

(** [DiffNode::validateUpdate]. *)
Definition validateUpdate (rules : Call -> Status) (node : t)
    (updatedElement leftSibling rightSibling : Element) (recursionLevel : nat)
    (modifyResult : ModifyResult) : Validating unit :=
  vbind (lift (invariant (bool_decide (modifyResult = kNormalUpdate)))) (fun _ =>
  vbind (if ok leftSibling then storageValid rules leftSibling false 0 else vret tt) (fun _ =>
  if ok rightSibling then storageValid rules rightSibling false 0 else vret tt)).

(** [DiffNode::logUpdate]; [logBuilder] is a pointer, [None] when null. *)
Definition logUpdate (node : t) (logBuilder : option LogBuilder.t) (pathTaken : string)
    (element : Element) (modifyResult : ModifyResult) : Outcome LogBuilder.t :=
  match logBuilder with
  | None => Aborts
  | Some lb =>
      _ ← invariant (bool_decide (modifyResult = kNormalUpdate));
      let r := LogBuilder.addToUnsets lb pathTaken in
      _ ← uassertStatusOK (fst r);
      Returns (snd r)
  end.

End DiffNode.

(** ** Notions used in the statements *)

(** [e] is a node of the document, [i] levels below the position [r]. *)
Definition below (doc : mutablebson.Document) (r : list nat) (i : nat) (e : mutablebson.Element) : Prop :=
  exists q : list nat,
    e = mutablebson.At (r ++ q) /\ length q = i /\ is_Some (mutablebson.resolve doc e).

(** The path that [prepare] looks for: the update path with the placeholder
    bound, when the modifier has recorded one. *)
Definition boundPath (m : ModifierDiff.t) (matchedField : string) : FieldRef.t :=
  if negb (Nat.eqb (ModifierDiff._pathReplacementPosition m) 0)
  then FieldRef.setPart (ModifierDiff._updatePath m)
         (ModifierDiff._pathReplacementPosition m) matchedField
  else ModifierDiff._updatePath m.

(** The binding step of [prepare] fails: a placeholder position is recorded
    and no matched field is supplied. *)
Definition missingMatch (m : ModifierDiff.t) (matchedField : string) : bool :=
  (negb (Nat.eqb (ModifierDiff._pathReplacementPosition m) 0)
   && String.eqb matchedField EmptyString)%bool.

(** Modelled from the spec: the update driver is not among the sources
    covered here. Section 2: after [prepare], the apply phase is skipped
    entirely when [prepare] decided no-op. What is observed of the phase: the
    status, the no-op classification and the document. *)
Definition applyPrepared (kDebugBuild : bool) (m : ModifierDiff.t)
    (doc : mutablebson.Document) : Outcome (Status * bool * mutablebson.Document) :=
  match ModifierDiff._preparedState m with
  | None => Aborts
  | Some ps =>
      if ModifierDiff.noOp ps then Returns (OK, true, doc)
      else
        r ← ModifierDiff.apply kDebugBuild m doc;
        Returns (fst r, false, snd r)
  end.

(** Modelled from the spec: the prepare / apply cycle of section 2 for one
    document; an error of [prepare] ends the cycle with the document as it
    was. *)
Definition runModifierDiff (kDebugBuild : bool) (m : ModifierDiff.t)
    (doc : mutablebson.Document) (root : mutablebson.Element) (matchedField : string)
    (ex : ModifierDiff.ExecInfo) : Outcome (Status * bool * mutablebson.Document) :=
  r ← ModifierDiff.prepare m doc root matchedField ex;
  if isOK (fst (fst r)) then applyPrepared kDebugBuild (snd (fst r)) doc
  else Returns (fst (fst r), ModifierDiff.execNoOp (snd r), doc).


(** The checks that section 4.5 of the spec asks for after a removal: the
    element before and the element after the vacated position, each only if
    it exists, each at the top recursion level. *)
Definition adjacentSiblingChecks (leftSibling rightSibling : mutablebson.Element)
    : list storage_validation.Call :=
  (if mutablebson.ok leftSibling
   then [storage_validation.mkCall leftSibling false 0] else []) ++
  (if mutablebson.ok rightSibling
   then [storage_validation.mkCall rightSibling false 0] else []).

(** Validate the listed elements in order, up to the first refusal. *)
Fixpoint validateAll (rules : storage_validation.Call -> Status)
    (todo : list storage_validation.Call) : storage_validation.Validating unit :=
  match todo with
  | [] => storage_validation.vret tt
  | c :: rest =>
      storage_validation.vbind
        (storage_validation.storageValid rules (storage_validation.elem c)
           (storage_validation.deep c) (storage_validation.recursionLevel c))
        (fun _ => validateAll rules rest)
  end.

(** Whether an outcome of [DiffNode::updateExistingElement] is the no-op
    result. *)
Definition classifiedNoOp (o : Outcome (DiffNode.ModifyResult * mutablebson.Document))
    : bool :=
  match o with
  | Returns (DiffNode.kNoOp, _) => true
  | _ => false
  end.

(** The number of placeholder parts of a path. *)
Definition placeholderCount (f : FieldRef.t) : nat :=
  length (List.filter fieldchecker.isPositionalPart f).

(** Two values have the same shape: the same type and children of the same
    names in the same order. *)
Definition sameShape (v' v : Value) : Prop :=
  typeOf v' = typeOf v /\
  map fst (mutablebson.childrenOf v') = map fst (mutablebson.childrenOf v).

(** Two documents have, at the position [c], nodes of the same shape. *)
Definition agreeAt (doc doc' : mutablebson.Document) (c : list nat) : Prop :=
  forall e : BSONElement,
    mutablebson.resolve doc (mutablebson.At c) = Some e ->
    exists e' : BSONElement,
      mutablebson.resolve doc' (mutablebson.At c) = Some e' /\
      sameShape (snd e') (snd e).

(** ** Sample documents and modifiers *)

Module Examples.

Import mutablebson.

(** [{a: {b: 5}}], [{a: [1, 2, 3]}] and the empty document. *)
Definition docAB : Document :=
  mkDocument (VObject [("a", VObject [("b", VInt 5)])]).

Definition docArr : Document :=
  mkDocument (VObject [("a", VArray [("0", VInt 1); ("1", VInt 2); ("2", VInt 3)])]).

Definition docEmpty : Document := mkDocument (VObject []).

(** [{a: [{b: 1}, {b: 2}, {b: 9}]}]. *)
Definition docArrObj : Document :=
  mkDocument
    (VObject [("a", VArray [("0", VObject [("b", VInt 1)]);
                            ("1", VObject [("b", VInt 2)]);
                            ("2", VObject [("b", VInt 9)])])]).

Definition noOptions : ModifierDiff.Options := ModifierDiff.mkOptions false false None.

Definition noExecInfo : ModifierDiff.ExecInfo := ModifierDiff.mkExecInfo None false.

(** The modifier that [init] builds from [{path: target}]. *)
Definition modifierFor (path : string) (target : Value) : ModifierDiff.t :=
  snd (fst (ModifierDiff.init ModifierDiff.new (path, target) noOptions false)).

(** A collator that makes all strings equal. *)
Definition allEqual : CollatorInterface := fun _ _ => 0.

End Examples.

(** * Properties *)

(** ** The document tree *)

Section Tree.

Import mutablebson.

Lemma childrenOf_withChildren (v : Value) (kids : list (string * Value)) (i : nat)
    (c : string * Value) :
  childrenOf v !! i = Some c -> childrenOf (withChildren v kids) = kids.
Proof. destruct v; simpl; intros H; try discriminate H; reflexivity. Qed.

Lemma typeOf_withChildren (v : Value) (kids : list (string * Value)) :
  typeOf (withChildren v kids) = typeOf v.
Proof. destruct v; reflexivity. Qed.

Lemma lookupFrom_app (e : BSONElement) (q : list nat) (i : nat) :
  lookupFrom e (q ++ [i]) =
  match lookupFrom e q with
  | Some x => childrenOf (value x) !! i
  | None => None
  end.
Proof.
  revert e. induction q as [|j q IH]; intros e; simpl.
  - destruct (childrenOf (value e) !! i); reflexivity.
  - destruct (childrenOf (value e) !! j); [apply IH | reflexivity].
Qed.

(** Rewriting the child list of the container at [q] is seen at [q]. *)
Lemma lookupFrom_alterAt (f : list (string * Value) -> list (string * Value))
    (q : list nat) :
  forall (n : string) (v : Value) (x : BSONElement),
    lookupFrom (n, v) q = Some x ->
    lookupFrom (n, alterAt f q v) q =
    Some (fieldName x, withChildren (value x) (f (childrenOf (value x)))).
Proof.
  induction q as [|j q IH]; intros n v x; simpl.
  - intros [= <-]. reflexivity.
  - destruct (childrenOf v !! j) as [[cn cv]|] eqn:Hj; [|discriminate].
    intros Hx. rewrite (childrenOf_withChildren v _ j _ Hj).
    rewrite list_lookup_alter_eq, Hj. simpl. apply IH, Hx.
Qed.

(** An element with a place in a parent: the parent is a node, and a
    container. *)
Lemma resolve_snoc (doc : Document) (pp : list nat) (k : nat) (x : BSONElement) :
  resolve doc (At (pp ++ [k])) = Some x ->
  exists pa : BSONElement,
    resolve doc (At pp) = Some pa /\ childrenOf (value pa) !! k = Some x.
Proof.
  unfold resolve. rewrite lookupFrom_app.
  destruct (lookupFrom _ pp) as [pa|]; [|discriminate].
  intros H. exists pa. split; [reflexivity | exact H].
Qed.

Lemma resolve_child (doc : Document) (pp : list nat) (k : nat) (pa x : BSONElement) :
  resolve doc (At pp) = Some pa -> childrenOf (value pa) !! k = Some x ->
  resolve doc (At (pp ++ [k])) = Some x.
Proof.
  unfold resolve. intros Hpa Hk. rewrite lookupFrom_app, Hpa. exact Hk.
Qed.

Lemma parent_snoc (pp : list nat) (k : nat) : parent (At (pp ++ [k])) = At pp.
Proof.
  unfold parent. destruct (pp ++ [k]) eqn:E.
  - destruct pp; discriminate E.
  - rewrite <- E, removelast_last. reflexivity.
Qed.

Lemma container_type (v : Value) (k : nat) (x : string * Value) :
  childrenOf v !! k = Some x -> typeOf v = Object \/ typeOf v = Array.
Proof. destruct v; simpl; intros H; try discriminate H; auto. Qed.

End Tree.

(** ** The path locator *)

Section Locator.

Import mutablebson pathsupport.

Variable doc : Document.

Lemma indexOfName_lookup (name : string) (kids : list BSONElement) :
  forall i : nat, indexOfName name kids = Some i -> is_Some (kids !! i).
Proof.
  induction kids as [|[k v] kids IH]; simpl; intros i; [discriminate|].
  destruct (String.eqb k name).
  - intros [= <-]. simpl. eauto.
  - destruct (indexOfName name kids) as [j|]; simpl; [|discriminate].
    intros [= <-]. simpl. apply IH. reflexivity.
Qed.

Lemma below_child (r : list nat) (i k : nat) (p : list nat) :
  below doc r i (At p) -> is_Some (resolve doc (At (p ++ [k]))) ->
  below doc r (S i) (At (p ++ [k])).
Proof.
  intros (q & Hq & Hlen & _) Hres. injection Hq as ->.
  exists (q ++ [k]). split; [|split].
  - rewrite app_assoc. reflexivity.
  - rewrite length_app. simpl. lia.
  - exact Hres.
Qed.

Lemma findFirstChildNamed_below (r : list nat) (i : nat) (e : Element) (part : string) :
  below doc r i e -> ok (findFirstChildNamed doc e part) = true ->
  below doc r (S i) (findFirstChildNamed doc e part).
Proof.
  intros Hb. unfold findFirstChildNamed.
  destruct e as [|p]; [discriminate|].
  destruct (resolve doc (At p)) as [x|] eqn:Hx; [|discriminate].
  destruct (indexOfName part (childrenOf (value x))) as [k|] eqn:Hk; [|discriminate].
  intros _. apply below_child; [exact Hb|].
  unfold resolve in *. rewrite lookupFrom_app, Hx.
  exact (indexOfName_lookup _ _ _ Hk).
Qed.

Lemma findNthChild_below (r : list nat) (i : nat) (e : Element) (n : nat) :
  below doc r i e -> ok (findNthChild doc e n) = true ->
  below doc r (S i) (findNthChild doc e n).
Proof.
  intros Hb. unfold findNthChild.
  destruct e as [|p]; [discriminate|].
  destruct (resolve doc (At (p ++ [n]))) as [x|] eqn:Hx; [|discriminate].
  intros _. apply below_child; [exact Hb|]. rewrite Hx. eauto.
Qed.

(** The loop keeps to nodes of the document: at a viable exit the current
    element, when there is one, lies [i'] levels below the root of the walk,
    and when there is none the previous element does. *)
Lemma walk_below (r : list nat) (parts : list string) :
  forall (i : nat) (curr prev : Element) (i' : nat) (curr' prev' : Element),
    below doc r i curr ->
    walk doc parts i curr prev = (i', curr', prev', true) ->
    (ok curr' = true -> below doc r i' curr') /\
    (ok curr' = false -> below doc r i' prev').
Proof.
  induction parts as [|part rest IH]; intros i curr prev i' curr' prev' Hb; simpl.
  - intros [= <- <- <-]. split; [auto|].
    destruct Hb as (q & -> & _). discriminate.
  - destruct (getType doc curr) eqn:Ht.
    1-3, 6-7: (simpl; rewrite orb_true_r; intros [=]).
    + destruct (ok (findFirstChildNamed doc curr part)) eqn:Hok; simpl.
      * apply IH. apply findFirstChildNamed_below; assumption.
      * intros [= <- <- <-]. split; [congruence | auto].
    + destruct (isNumeric part) as [n|].
      * destruct (ok (findNthChild doc curr n)) eqn:Hok; simpl.
        -- apply IH. apply findNthChild_below; assumption.
        -- intros [= <- <- <-]. split; [congruence | auto].
      * simpl. rewrite orb_true_r. intros [=].
Qed.

(** What the locator hands back with an OK status has a place in a parent
    and is a node of the document. *)
Lemma findLongestPrefix_OK (prefix : FieldRef.t) (root : Element) (i0 : nat)
    (e0 : Element) (idx : nat) (e : Element) :
  findLongestPrefix prefix doc root i0 e0 = (OK, idx, e) ->
  exists (pp : list nat) (k : nat) (x : BSONElement),
    e = At (pp ++ [k]) /\ resolve doc e = Some x.
Proof.
  unfold findLongestPrefix.
  destruct (hasChildren doc root) eqn:Hc; simpl; [|intros [=]].
  destruct (Nat.eqb (FieldRef.numParts prefix) 0); [intros [=]|].
  destruct (walk doc prefix 0 root root) as [[[i curr] prev] viable] eqn:Hw.
  destruct (Nat.eqb i 0) eqn:Hi; [intros [=]|].
  destruct viable; simpl; [|intros [=]].
  assert (Hroot : below doc (match root with At p => p | End => [] end) 0 root).
  { unfold hasChildren in Hc. destruct root as [|p]; [discriminate|].
    exists []. rewrite app_nil_r. repeat split.
    destruct (resolve doc (At p)); [eauto | discriminate]. }
  destruct (walk_below _ _ _ _ _ _ _ _ Hroot Hw) as [Hfound Hmiss].
  apply Nat.eqb_neq in Hi.
  assert (Hend : forall e', below doc (match root with At p => p | End => [] end) i e' ->
            exists pp k x, e' = At (pp ++ [k]) /\ resolve doc e' = Some x).
  { intros e' (q & -> & Hlen & [x Hx]).
    destruct q as [|a q] using rev_ind; [simpl in Hlen; lia|].
    exists (match root with At p => p | End => [] end ++ q), a, x.
    rewrite <- app_assoc. auto. }
  destruct (ok curr) eqn:Hok; intros [= _ <-]; auto.
Qed.

(** When the locator says that the path does not exist, it has written
    nothing. *)
Lemma findLongestPrefix_NonExistentPath (prefix : FieldRef.t) (root : Element)
    (i0 : nat) (e0 : Element) (idx : nat) (e : Element) :
  findLongestPrefix prefix doc root i0 e0 = (NonExistentPath, idx, e) ->
  idx = i0 /\ e = e0.
Proof.
  unfold findLongestPrefix.
  destruct (negb (hasChildren doc root) || Nat.eqb (FieldRef.numParts prefix) 0)%bool;
    [intros [= <- <-]; auto|].
  destruct (walk doc prefix 0 root root) as [[[i curr] prev] viable].
  destruct (Nat.eqb i 0); [intros [= <- <-]; auto|].
  destruct (negb viable); [intros [=]|].
  destruct (ok curr); intros [=].
Qed.

(** A path that goes on below a scalar field of the root object is not
    viable. *)
Lemma findLongestPrefix_through_scalar (a b : string) (rest : list string)
    (fields : list BSONElement) (i : nat) (x : BSONElement) (i0 : nat) (e0 : Element) :
  rootValue doc = VObject fields ->
  indexOfName a fields = Some i ->
  fields !! i = Some x ->
  typeOf (value x) <> Object ->
  typeOf (value x) <> Array ->
  findLongestPrefix (a :: b :: rest) doc (At []) i0 e0 = (PathNotViable, 0%nat, At [i]).
Proof.
  intros Hroot Hi Hx HnO HnA.
  unfold findLongestPrefix, hasChildren, walk, getType, findFirstChildNamed, resolve.
  cbn [lookupFrom value snd app]. rewrite Hroot. cbn [typeOf childrenOf].
  rewrite Hi. cbn [lookupFrom value snd childrenOf]. rewrite Hx.
  destruct fields as [|f fields]; [discriminate Hx|].
  cbn [negb orb ok FieldRef.numParts length Nat.eqb].
  destruct (typeOf (value x)); try congruence; reflexivity.
Qed.

End Locator.

(** ** The tree primitives on an attached element *)

Section Primitives.

Import mutablebson.

Variable doc : Document.
Variables (pp : list nat) (k : nat) (x : BSONElement).
Hypothesis attached : resolve doc (At (pp ++ [k])) = Some x.

Lemma remove_attached : remove doc (At (pp ++ [k])) = Returns (OK, detached doc pp k).
Proof.
  unfold remove. rewrite last_snoc, attached, removelast_last. reflexivity.
Qed.

Lemma setValueNull_attached :
  setValueNull doc (At (pp ++ [k])) = Returns (OK, nulled doc pp k).
Proof.
  unfold setValueNull. rewrite last_snoc, attached, removelast_last. reflexivity.
Qed.

Lemma compare_attached (rhs : BSONElement) (c : option CollatorInterface) (b : bool) :
  compareWithBSONElement doc (At (pp ++ [k])) rhs c b = Returns (woCompare x rhs b c).
Proof. unfold compareWithBSONElement. rewrite attached. reflexivity. Qed.

Lemma resolve_detached (pa : BSONElement) :
  resolve doc (At pp) = Some pa ->
  resolve (detached doc pp k) (At pp) =
  Some (fieldName pa, withChildren (value pa) (delete k (childrenOf (value pa)))).
Proof. intros H. apply (lookupFrom_alterAt _ _ _ _ _ H). Qed.

Lemma resolve_nulled (pa : BSONElement) :
  resolve doc (At pp) = Some pa ->
  resolve (nulled doc pp k) (At pp) =
  Some (fieldName pa,
        withChildren (value pa)
          (alter (fun c => (fst c, VNull)) k (childrenOf (value pa)))).
Proof. intros H. apply (lookupFrom_alterAt _ _ _ _ _ H). Qed.

End Primitives.

(** ** The two modifiers on an attached element *)

Section OnAttached.

Import mutablebson.

#[local] Arguments parent : simpl never.
#[local] Arguments remove : simpl never.
#[local] Arguments setValueNull : simpl never.
#[local] Arguments isType : simpl never.

Variable doc : Document.
Variables (pp : list nat) (k : nat) (x : BSONElement).
Hypothesis attached : resolve doc (At (pp ++ [k])) = Some x.

(** [DiffNode::updateExistingElement], branch by branch. *)
Lemma updateExistingElement_attached (node : DiffNode.t) (path : FieldRef.t) :
  DiffNode.updateExistingElement node doc (At (pp ++ [k])) path =
  if negb (Z.eqb (woCompare x (DiffNode._val node) false None) 0)
  then Returns (DiffNode.kNoOp, doc)
  else if isType doc (At pp) Array
       then Returns (DiffNode.kNormalUpdate, nulled doc pp k)
       else Returns (DiffNode.kNormalUpdate, detached doc pp k).
Proof.
  unfold DiffNode.updateExistingElement.
  rewrite (compare_attached _ _ _ _ attached). simpl.
  destruct (negb _); [reflexivity|].
  rewrite parent_snoc. simpl.
  destruct (isType doc (At pp) Array); simpl.
  - rewrite (setValueNull_attached _ _ _ _ attached). reflexivity.
  - rewrite (remove_attached _ _ _ _ attached). reflexivity.
Qed.

(** [ModifierDiff::apply] on a prepared state that is not a no-op. *)
Lemma apply_attached (kDebugBuild : bool) (m : ModifierDiff.t)
    (ps : ModifierDiff.PreparedState) :
  ModifierDiff._preparedState m = Some ps ->
  ModifierDiff.elemFound ps = At (pp ++ [k]) ->
  ModifierDiff.noOp ps = false ->
  ModifierDiff.apply kDebugBuild m doc =
  if isType doc (At pp) Array
  then Returns (OK, nulled doc pp k)
  else Returns (OK, detached doc pp k).
Proof.
  intros Hps He Hn. unfold ModifierDiff.apply. rewrite Hps, Hn, He.
  assert (Hd : dassert kDebugBuild (negb false) = Returns tt)
    by (destruct kDebugBuild; reflexivity).
  rewrite Hd. simpl. rewrite parent_snoc. simpl. unfold isType.
  destruct (bool_decide (getType doc (At pp) = Array)).
  - apply (setValueNull_attached _ _ _ _ attached).
  - apply (remove_attached _ _ _ _ attached).
Qed.

End OnAttached.

(** ** What [prepare] leaves behind *)

Section Prepare.

Import mutablebson.

#[local] Arguments pathsupport.findLongestPrefix : simpl never.
#[local] Arguments compareWithBSONElement : simpl never.
#[local] Arguments size_t_sub : simpl never.

Lemma prepare_missingMatch (m : ModifierDiff.t) (doc : Document) (root : Element)
    (matchedField : string) (ex : ModifierDiff.ExecInfo) :
  missingMatch m matchedField = true ->
  ModifierDiff.prepare m doc root matchedField ex =
  Returns (BadValue,
           ModifierDiff.mk (ModifierDiff._updatePath m)
             (ModifierDiff._pathReplacementPosition m) (ModifierDiff._val m)
             (Some (ModifierDiff.newPreparedState doc)),
           ex).
Proof.
  unfold missingMatch, ModifierDiff.prepare. simpl. intros ->. reflexivity.
Qed.

(** [prepare] past the binding step, by the answer of the locator. *)
Lemma prepare_bound (m : ModifierDiff.t) (doc : Document) (root : Element)
    (matchedField : string) (ex : ModifierDiff.ExecInfo)
    (s : Status) (idx : nat) (e : Element) :
  missingMatch m matchedField = false ->
  pathsupport.findLongestPrefix (boundPath m matchedField) doc root 0 End = (s, idx, e) ->
  let mb := ModifierDiff.mk (boundPath m matchedField)
              (ModifierDiff._pathReplacementPosition m) (ModifierDiff._val m)
              (Some (ModifierDiff.newPreparedState doc)) in
  let done (ps : ModifierDiff.PreparedState) :=
    ModifierDiff.mk (boundPath m matchedField)
      (ModifierDiff._pathReplacementPosition m) (ModifierDiff._val m) (Some ps) in
  ModifierDiff.prepare m doc root matchedField ex =
  if bool_decide (s = NonExistentPath) || isOK s
  then
    let elem := if bool_decide (s = NonExistentPath) then End else e in
    if negb (ModifierDiff.destExists mb idx elem)
    then Returns (OK, done (ModifierDiff.mkPreparedState idx elem true),
                  ModifierDiff.mkExecInfo (Some (boundPath m matchedField)) true)
    else
      compareVal ← compareWithBSONElement doc elem (ModifierDiff._val m) None false;
      Returns (OK,
               done (ModifierDiff.mkPreparedState idx elem (negb (Z.eqb compareVal 0))),
               ModifierDiff.mkExecInfo (Some (boundPath m matchedField))
                 (negb (Z.eqb compareVal 0)))
  else Returns (s, done (ModifierDiff.mkPreparedState idx e false), ex).
Proof.
  unfold missingMatch, boundPath, ModifierDiff.prepare. simpl. intros -> Hf.
  destruct (negb (Nat.eqb (ModifierDiff._pathReplacementPosition m) 0));
    simpl in *; unfold end_; rewrite Hf; reflexivity.
Qed.

(** After a successful [prepare] that found the whole path, the located
    element has a place in a parent, is a node of the document, and the
    no-op flag is the outcome of the comparison. *)
Lemma prepare_located (m : ModifierDiff.t) (doc : Document) (root : Element)
    (matchedField : string) (ex : ModifierDiff.ExecInfo)
    (m' : ModifierDiff.t) (ex' : ModifierDiff.ExecInfo)
    (ps : ModifierDiff.PreparedState) :
  ModifierDiff.prepare m doc root matchedField ex = Returns (OK, m', ex') ->
  ModifierDiff._preparedState m' = Some ps ->
  ModifierDiff.destExists m' (ModifierDiff.idxFound ps) (ModifierDiff.elemFound ps) = true ->
  exists (pp : list nat) (k : nat) (x : BSONElement),
    ModifierDiff.elemFound ps = At (pp ++ [k]) /\
    resolve doc (At (pp ++ [k])) = Some x /\
    ModifierDiff.noOp ps = negb (Z.eqb (woCompare x (ModifierDiff._val m) false None) 0) /\
    ModifierDiff.execNoOp ex' = ModifierDiff.noOp ps /\
    ModifierDiff._val m' = ModifierDiff._val m.
Proof.
  destruct (missingMatch m matchedField) eqn:Hmm.
  { rewrite (prepare_missingMatch _ _ _ _ _ Hmm). intros [=]. }
  destruct (pathsupport.findLongestPrefix (boundPath m matchedField) doc root 0 End)
    as [[s idx] e] eqn:Hf.
  rewrite (prepare_bound _ _ _ _ _ _ _ _ Hmm Hf). cbv zeta.
  destruct (bool_decide (s = NonExistentPath)) eqn:Hne; simpl.
  { intros [= <- <-] [= <-]. simpl. unfold ModifierDiff.destExists. simpl. intros [=]. }
  destruct (isOK s) eqn:Hok;
    [|intros [= -> _ _]; discriminate Hok].
  destruct s; try discriminate Hok.
  destruct (findLongestPrefix_OK _ _ _ _ _ _ _ Hf) as (pp & k & x & -> & Hx).
  destruct (ModifierDiff.destExists _ idx (At (pp ++ [k]))) eqn:Hd; simpl.
  - rewrite (compare_attached _ _ _ _ Hx). simpl.
    intros [= <- <-] [= <-] _. exists pp, k, x. simpl. auto.
  - intros [= <- <-] [= <-]. simpl. unfold ModifierDiff.destExists in *. simpl in *.
    rewrite Hd. intros [=].
Qed.


End Prepare.

(** ** The no-op decision *)

Section Decision.

Import mutablebson.

(** C10. [DiffNode::updateExistingElement] on an element whose value
    compares unequal to the target returns the no-op result and leaves the
    whole document as it was. *)
Theorem updateExistingElement_mismatch_unchanged (node : DiffNode.t) (doc : Document)
    (element : Element) (elementPath : FieldRef.t) (x : BSONElement) :
  resolve doc element = Some x ->
  woCompare x (DiffNode._val node) false None <> 0 ->
  DiffNode.updateExistingElement node doc element elementPath =
  Returns (DiffNode.kNoOp, doc).
Proof.
  intros Hx Hc. unfold DiffNode.updateExistingElement, compareWithBSONElement.
  rewrite Hx. simpl. apply Z.eqb_neq in Hc. rewrite Hc. reflexivity.
Qed.

Lemma updateExistingElement_mismatch_unchanged_witness :
  DiffNode.updateExistingElement (DiffNode.mk (EmptyString, VInt 7)) Examples.docAB
    (At [0; 0]%nat) ["a"; "b"] =
  Returns (DiffNode.kNoOp, Examples.docAB).
Proof.
  apply (updateExistingElement_mismatch_unchanged _ _ _ _ ("b", VInt 5)).
  - reflexivity.
  - vm_compute. discriminate.
Defined.

(** C1. After a successful [prepare] that found the whole path, the
    operation is a no-op exactly when the located element compares unequal to
    the target and an effective mutation exactly when it compares equal; and
    [DiffNode::updateExistingElement] classifies the same element the same
    way. *)
Theorem noop_exactly_on_mismatch (m : ModifierDiff.t) (doc : Document) (root : Element)
    (matchedField : string) (ex : ModifierDiff.ExecInfo)
    (m' : ModifierDiff.t) (ex' : ModifierDiff.ExecInfo)
    (ps : ModifierDiff.PreparedState) :
  ModifierDiff.prepare m doc root matchedField ex = Returns (OK, m', ex') ->
  ModifierDiff._preparedState m' = Some ps ->
  ModifierDiff.destExists m' (ModifierDiff.idxFound ps) (ModifierDiff.elemFound ps) = true ->
  exists x : BSONElement,
    resolve doc (ModifierDiff.elemFound ps) = Some x /\
    (ModifierDiff.noOp ps = true <-> woCompare x (ModifierDiff._val m) false None <> 0) /\
    (ModifierDiff.noOp ps = false <-> woCompare x (ModifierDiff._val m) false None = 0) /\
    ModifierDiff.execNoOp ex' = ModifierDiff.noOp ps /\
    exists (r : DiffNode.ModifyResult) (doc' : Document),
      DiffNode.updateExistingElement (DiffNode.mk (ModifierDiff._val m)) doc
        (ModifierDiff.elemFound ps) (ModifierDiff._updatePath m') = Returns (r, doc') /\
      (r = DiffNode.kNoOp <-> woCompare x (ModifierDiff._val m) false None <> 0) /\
      (r = DiffNode.kNormalUpdate <-> woCompare x (ModifierDiff._val m) false None = 0).
Proof.
  intros Hp Hps Hd.
  destruct (prepare_located _ _ _ _ _ _ _ _ Hp Hps Hd)
    as (pp & k & x & He & Hx & Hn & Hex & _).
  exists x. rewrite He, Hex, Hn. split; [exact Hx|].
  rewrite (updateExistingElement_attached _ _ _ _ Hx). simpl.
  destruct (Z.eqb_spec (woCompare x (ModifierDiff._val m) false None) 0) as [E|E];
    simpl.
  - repeat split; try congruence.
    destruct (isType doc (At pp) Array); do 2 eexists;
      (split; [reflexivity|]); split; split; congruence.
  - repeat split; try congruence.
    do 2 eexists. split; [reflexivity|]. split; split; congruence.
Qed.

Lemma noop_exactly_on_mismatch_witness :
  exists x : BSONElement,
    resolve Examples.docAB (At [0; 0]%nat) = Some x /\
    (false = true <-> woCompare x ("a.b", VInt 5) false None <> 0) /\
    (false = false <-> woCompare x ("a.b", VInt 5) false None = 0) /\
    false = false /\
    exists (r : DiffNode.ModifyResult) (doc' : Document),
      DiffNode.updateExistingElement (DiffNode.mk ("a.b", VInt 5)) Examples.docAB
        (At [0; 0]%nat) ["a"; "b"] = Returns (r, doc') /\
      (r = DiffNode.kNoOp <-> woCompare x ("a.b", VInt 5) false None <> 0) /\
      (r = DiffNode.kNormalUpdate <-> woCompare x ("a.b", VInt 5) false None = 0).
Proof.
  apply (noop_exactly_on_mismatch (Examples.modifierFor "a.b" (VInt 5)) Examples.docAB
           (At []) EmptyString Examples.noExecInfo
           (ModifierDiff.mk ["a"; "b"] 0 ("a.b", VInt 5)
              (Some (ModifierDiff.mkPreparedState 1 (At [0; 0]%nat) false)))
           (ModifierDiff.mkExecInfo (Some ["a"; "b"]) false)
           (ModifierDiff.mkPreparedState 1 (At [0; 0]%nat) false)).
  - vm_compute. reflexivity.
  - reflexivity.
  - vm_compute. reflexivity.
Defined.

End Decision.

(** ** The mutation *)

Section Mutation.

Import mutablebson.

#[local] Arguments parent : simpl never.
#[local] Arguments remove : simpl never.
#[local] Arguments setValueNull : simpl never.
#[local] Arguments isType : simpl never.

Lemma isType_resolve (doc : Document) (e : Element) (pa : BSONElement) (t : BSONType) :
  resolve doc e = Some pa -> isType doc e t = bool_decide (typeOf (value pa) = t).
Proof. unfold isType, getType. intros ->. reflexivity. Qed.

(** C2. An effective mutation of an element whose parent is an array puts
    null in its place, in both conventions: the element keeps its key and
    its position, the array keeps its length, and every other element of the
    array is where it was. *)
Theorem array_element_nulled_in_place (kDebugBuild : bool) (m : ModifierDiff.t)
    (ps : ModifierDiff.PreparedState) (node : DiffNode.t) (elementPath : FieldRef.t)
    (doc : Document) (pp : list nat) (k : nat) (x : BSONElement)
    (an : string) (kids : list BSONElement) :
  ModifierDiff._preparedState m = Some ps ->
  ModifierDiff.noOp ps = false ->
  ModifierDiff.elemFound ps = At (pp ++ [k]) ->
  resolve doc (At pp) = Some (an, VArray kids) ->
  kids !! k = Some x ->
  exists (doc' : Document) (kids' : list BSONElement),
    ModifierDiff.apply kDebugBuild m doc = Returns (OK, doc') /\
    (woCompare x (DiffNode._val node) false None = 0 ->
     DiffNode.updateExistingElement node doc (At (pp ++ [k])) elementPath =
     Returns (DiffNode.kNormalUpdate, doc')) /\
    resolve doc' (At pp) = Some (an, VArray kids') /\
    kids' !! k = Some (fieldName x, VNull) /\
    length kids' = length kids /\
    forall j : nat, j <> k -> kids' !! j = kids !! j.
Proof.
  intros Hps Hn He Hpa Hk.
  assert (Hx : resolve doc (At (pp ++ [k])) = Some x)
    by (apply (resolve_child _ _ _ _ _ Hpa); exact Hk).
  exists (nulled doc pp k), (alter (fun c => (fst c, VNull)) k kids).
  split; [|split; [|split; [|split; [|split]]]].
  - rewrite (apply_attached _ _ _ _ Hx _ _ _ Hps He Hn).
    rewrite (isType_resolve _ _ _ _ Hpa). reflexivity.
  - intros Hc. rewrite (updateExistingElement_attached _ _ _ _ Hx), Hc.
    rewrite (isType_resolve _ _ _ _ Hpa). reflexivity.
  - rewrite (resolve_nulled _ _ _ _ Hpa). reflexivity.
  - rewrite list_lookup_alter_eq, Hk. reflexivity.
  - apply length_alter.
  - intros j Hj. apply list_lookup_alter_ne. congruence.
Qed.

Lemma array_element_nulled_in_place_witness :
  exists (doc' : Document) (kids' : list BSONElement),
    ModifierDiff.apply true
      (ModifierDiff.mk ["a"; "1"] 0 ("a.1", VInt 2)
         (Some (ModifierDiff.mkPreparedState 1 (At [0; 1]%nat) false)))
      Examples.docArr = Returns (OK, doc') /\
    (woCompare ("1", VInt 2) ("a.1", VInt 2) false None = 0 ->
     DiffNode.updateExistingElement (DiffNode.mk ("a.1", VInt 2)) Examples.docArr
       (At ([0%nat] ++ [1%nat])) ["a"; "1"] =
     Returns (DiffNode.kNormalUpdate, doc')) /\
    resolve doc' (At [0%nat]) = Some ("a", VArray kids') /\
    kids' !! 1%nat = Some ("1", VNull) /\
    length kids' = 3%nat /\
    forall j : nat, j <> 1%nat ->
      kids' !! j = [("0", VInt 1); ("1", VInt 2); ("2", VInt 3)] !! j.
Proof.
  apply (array_element_nulled_in_place true _
           (ModifierDiff.mkPreparedState 1 (At [0; 1]%nat) false)
           (DiffNode.mk ("a.1", VInt 2)) ["a"; "1"] Examples.docArr
           [0%nat] 1%nat ("1", VInt 2) "a"
           [("0", VInt 1); ("1", VInt 2); ("2", VInt 3)]);
    reflexivity.
Defined.

(** C3, as the code has it. An effective mutation of an element whose
    parent is an object detaches the element, value and key, in both
    conventions. On an element without a parent the conventions part:
    [ModifierDiff::apply] hands it to [Element::remove] and returns what that
    returns, [DiffNode::updateExistingElement] stops at
    [invariant(parent.ok())]. *)
Theorem object_field_detached (kDebugBuild : bool) (m : ModifierDiff.t)
    (ps : ModifierDiff.PreparedState) (node : DiffNode.t) (elementPath : FieldRef.t)
    (doc : Document) :
  ModifierDiff._preparedState m = Some ps ->
  ModifierDiff.noOp ps = false ->
  (forall (pp : list nat) (k : nat) (x : BSONElement) (on : string)
          (fields : list BSONElement),
      ModifierDiff.elemFound ps = At (pp ++ [k]) ->
      resolve doc (At pp) = Some (on, VObject fields) ->
      fields !! k = Some x ->
      exists doc' : Document,
        ModifierDiff.apply kDebugBuild m doc = Returns (OK, doc') /\
        (woCompare x (DiffNode._val node) false None = 0 ->
         DiffNode.updateExistingElement node doc (At (pp ++ [k])) elementPath =
         Returns (DiffNode.kNormalUpdate, doc')) /\
        resolve doc' (At pp) = Some (on, VObject (delete k fields))) /\
  (ModifierDiff.elemFound ps = At [] ->
   ModifierDiff.apply kDebugBuild m doc = remove doc (At []) /\
   forall x : BSONElement,
     resolve doc (At []) = Some x ->
     woCompare x (DiffNode._val node) false None = 0 ->
     DiffNode.updateExistingElement node doc (At []) elementPath = Aborts).
Proof.
  intros Hps Hn. split.
  - intros pp k x on fields He Hpa Hk.
    assert (Hx : resolve doc (At (pp ++ [k])) = Some x)
      by (apply (resolve_child _ _ _ _ _ Hpa); exact Hk).
    exists (detached doc pp k). split; [|split].
    + rewrite (apply_attached _ _ _ _ Hx _ _ _ Hps He Hn).
      rewrite (isType_resolve _ _ _ _ Hpa). reflexivity.
    + intros Hc. rewrite (updateExistingElement_attached _ _ _ _ Hx), Hc.
      rewrite (isType_resolve _ _ _ _ Hpa). reflexivity.
    + rewrite (resolve_detached _ _ _ _ Hpa). reflexivity.
  - intros He. split.
    + unfold ModifierDiff.apply. rewrite Hps, Hn, He.
      destruct kDebugBuild; reflexivity.
    + intros x Hx Hc. unfold DiffNode.updateExistingElement, compareWithBSONElement.
      rewrite Hx. simpl. rewrite Hc. reflexivity.
Qed.

Lemma object_field_detached_witness :
  exists doc' : Document,
    ModifierDiff.apply true
      (ModifierDiff.mk ["a"; "b"] 0 ("a.b", VInt 5)
         (Some (ModifierDiff.mkPreparedState 1 (At [0; 0]%nat) false)))
      Examples.docAB = Returns (OK, doc') /\
    DiffNode.updateExistingElement (DiffNode.mk ("a.b", VInt 5)) Examples.docAB
      (At [0; 0]%nat) ["a"; "b"] = Returns (DiffNode.kNormalUpdate, doc') /\
    resolve doc' (At [0%nat]) = Some ("a", VObject []).
Proof.
  destruct (object_field_detached true
              (ModifierDiff.mk ["a"; "b"] 0 ("a.b", VInt 5)
                 (Some (ModifierDiff.mkPreparedState 1 (At [0; 0]%nat) false)))
              (ModifierDiff.mkPreparedState 1 (At [0; 0]%nat) false)
              (DiffNode.mk ("a.b", VInt 5)) ["a"; "b"] Examples.docAB
              eq_refl eq_refl) as [H _].
  destruct (H [0%nat] 0%nat ("b", VInt 5) "a" [("b", VInt 5)] eq_refl eq_refl eq_refl)
    as (doc' & Ha & Hu & Hr).
  exists doc'. split; [exact Ha|]. split; [exact (Hu eq_refl) | exact Hr].
Defined.

(** C3, as the spec has it, fails on the document root: the root of the
    empty document compares equal to the target [{}] and has no parent, and
    [DiffNode::updateExistingElement] does not get to detach anything. *)
Lemma root_is_not_detached_by_DiffNode :
  resolve Examples.docEmpty (At []) = Some (EmptyString, VObject []) /\
  parent (At []) = End /\
  woCompare (EmptyString, VObject []) (EmptyString, VObject []) false None = 0 /\
  DiffNode.updateExistingElement (DiffNode.mk (EmptyString, VObject [])) Examples.docEmpty
    (At []) [] = Aborts /\
  ~ (exists doc' : Document,
       DiffNode.updateExistingElement (DiffNode.mk (EmptyString, VObject [])) Examples.docEmpty
         (At []) [] = Returns (DiffNode.kNormalUpdate, doc')).
Proof.
  repeat split. intros [doc' H]. vm_compute in H. discriminate H.
Qed.

End Mutation.

(** ** Path resolution in [prepare] *)

Section Resolution.

Import mutablebson.

(** C4. Past the binding step, when the locator reports that the path does
    not exist, [prepare] succeeds, with the end sentinel as the located
    element and the operation a no-op; any other failure of the locator is
    the status that [prepare] returns, with the execution info untouched. *)
Theorem nonexistent_path_is_noop_other_failures_returned (m : ModifierDiff.t)
    (doc : Document) (root : Element) (matchedField : string)
    (ex : ModifierDiff.ExecInfo) (s : Status) (idx : nat) (e : Element) :
  missingMatch m matchedField = false ->
  pathsupport.findLongestPrefix (boundPath m matchedField) doc root 0 End = (s, idx, e) ->
  (s = NonExistentPath ->
   exists (m' : ModifierDiff.t) (ex' : ModifierDiff.ExecInfo)
          (ps : ModifierDiff.PreparedState),
     ModifierDiff.prepare m doc root matchedField ex = Returns (OK, m', ex') /\
     ModifierDiff._preparedState m' = Some ps /\
     ModifierDiff.elemFound ps = end_ doc /\
     ModifierDiff.noOp ps = true /\
     ModifierDiff.execNoOp ex' = true) /\
  (s <> NonExistentPath -> s <> OK ->
   exists m' : ModifierDiff.t,
     ModifierDiff.prepare m doc root matchedField ex = Returns (s, m', ex)).
Proof.
  intros Hmm Hf. rewrite (prepare_bound _ _ _ _ _ _ _ _ Hmm Hf). cbv zeta. split.
  - intros ->. simpl. do 3 eexists. split; [reflexivity|]. simpl. auto.
  - intros Hne Hok. rewrite bool_decide_eq_false_2 by exact Hne.
    destruct s; try congruence; simpl; eexists; reflexivity.
Qed.

Lemma nonexistent_path_is_noop_other_failures_returned_witness :
  (exists (m' : ModifierDiff.t) (ex' : ModifierDiff.ExecInfo)
          (ps : ModifierDiff.PreparedState),
     ModifierDiff.prepare (Examples.modifierFor "x.y" (VInt 1)) Examples.docAB
       (At []) EmptyString Examples.noExecInfo = Returns (OK, m', ex') /\
     ModifierDiff._preparedState m' = Some ps /\
     ModifierDiff.elemFound ps = End /\
     ModifierDiff.noOp ps = true /\
     ModifierDiff.execNoOp ex' = true) /\
  (exists m' : ModifierDiff.t,
     ModifierDiff.prepare (Examples.modifierFor "a.b.c" (VInt 1)) Examples.docAB
       (At []) EmptyString Examples.noExecInfo =
     Returns (PathNotViable, m', Examples.noExecInfo)).
Proof.
  split.
  - apply (nonexistent_path_is_noop_other_failures_returned
             (Examples.modifierFor "x.y" (VInt 1)) Examples.docAB (At []) EmptyString
             Examples.noExecInfo NonExistentPath 0%nat End);
      reflexivity.
  - apply (nonexistent_path_is_noop_other_failures_returned
             (Examples.modifierFor "a.b.c" (VInt 1)) Examples.docAB (At []) EmptyString
             Examples.noExecInfo PathNotViable 1%nat (At [0; 0]%nat));
      [reflexivity | reflexivity | discriminate | discriminate].
Defined.

(** C9, at the input where the code parts from the spec: the path [$.b]
    has its placeholder at index 0, [init] accepts it and reports it as
    positional, and [prepare] with an empty matched field does not fail: it
    looks for a field named [$] and ends as a no-op. *)
Theorem placeholder_at_index_zero_is_not_bound :
  ModifierDiff.init ModifierDiff.new ("$.b", VInt 1) Examples.noOptions false =
  (OK, ModifierDiff.mk ["$"; "b"] 0 ("$.b", VInt 1) None, true) /\
  ModifierDiff.prepare (Examples.modifierFor "$.b" (VInt 1)) Examples.docAB
    (root Examples.docAB) EmptyString Examples.noExecInfo =
  Returns (OK,
           ModifierDiff.mk ["$"; "b"] 0 ("$.b", VInt 1)
             (Some (ModifierDiff.mkPreparedState 0 End true)),
           ModifierDiff.mkExecInfo (Some ["$"; "b"]) true).
Proof. split; vm_compute; reflexivity. Qed.

End Resolution.

(** ** Validation and logging *)

Section Protocol.

Import mutablebson storage_validation.

Lemma validateAll_trace (rules : Call -> Status) (todo : list Call) :
  forall calls : list Call,
  exists made : list Call,
    snd (validateAll rules todo calls) = calls ++ made /\
    made `prefix_of` todo /\
    fst (validateAll rules todo calls) <> Aborts /\
    (fst (validateAll rules todo calls) = Returns tt -> made = todo).
Proof.
  induction todo as [|c rest IH]; intros calls; simpl.
  - exists []. rewrite app_nil_r. repeat split; [apply prefix_nil | discriminate].
  - unfold vbind, storageValid, uassertStatusOK.
    destruct c as [e d l]. simpl.
    destruct (isOK (rules (mkCall e d l))).
    + destruct (IH (calls ++ [mkCall e d l])) as (made & Hs & Hp & Ha & Hr).
      exists (mkCall e d l :: made). rewrite Hs, <- app_assoc. simpl.
      repeat split; [apply prefix_cons, Hp | exact Ha |].
      intros H. rewrite (Hr H). reflexivity.
    + exists [mkCall e d l]. simpl.
      repeat split; [apply prefix_cons, prefix_nil | discriminate | discriminate].
Qed.

(** C5, as the code has it. [DiffNode::validateUpdate] aborts unless the
    result is [kNormalUpdate], which is what [updateExistingElement] returns
    after a removal and after a null-substitution alike; on [kNormalUpdate] it
    validates the left and the right sibling it is given, each only if it
    exists, each at recursion level 0, and nothing else: the calls it adds
    are an initial part of those two checks, all of them when no check is
    refused, and none when neither sibling exists. *)
Theorem validateUpdate_checks_adjacent_siblings_only (rules : Call -> Status)
    (node : DiffNode.t) (updatedElement leftSibling rightSibling : Element)
    (recursionLevel : nat) (modifyResult : DiffNode.ModifyResult) (calls : list Call) :
  (modifyResult <> DiffNode.kNormalUpdate ->
   DiffNode.validateUpdate rules node updatedElement leftSibling rightSibling
     recursionLevel modifyResult calls = (Aborts, calls)) /\
  (modifyResult = DiffNode.kNormalUpdate ->
   DiffNode.validateUpdate rules node updatedElement leftSibling rightSibling
     recursionLevel modifyResult calls =
   validateAll rules (adjacentSiblingChecks leftSibling rightSibling) calls /\
   exists made : list Call,
     snd (DiffNode.validateUpdate rules node updatedElement leftSibling rightSibling
            recursionLevel modifyResult calls) = calls ++ made /\
     made `prefix_of` adjacentSiblingChecks leftSibling rightSibling /\
     (fst (DiffNode.validateUpdate rules node updatedElement leftSibling rightSibling
             recursionLevel modifyResult calls) = Returns tt ->
      made = adjacentSiblingChecks leftSibling rightSibling)) /\
  (modifyResult = DiffNode.kNormalUpdate ->
   ok leftSibling = false -> ok rightSibling = false ->
   DiffNode.validateUpdate rules node updatedElement leftSibling rightSibling
     recursionLevel modifyResult calls = (Returns tt, calls)) /\
  (forall (doc doc' : Document) (element : Element) (elementPath : FieldRef.t)
          (r : DiffNode.ModifyResult),
      DiffNode.updateExistingElement node doc element elementPath = Returns (r, doc') ->
      (r = DiffNode.kNoOp /\ doc' = doc) \/ r = DiffNode.kNormalUpdate).
Proof.
  split; [|split; [|split]].
  - intros Hr. unfold DiffNode.validateUpdate, vbind, lift.
    rewrite bool_decide_eq_false_2 by exact Hr. reflexivity.
  - intros ->.
    assert (E : DiffNode.validateUpdate rules node updatedElement leftSibling
                  rightSibling recursionLevel DiffNode.kNormalUpdate calls =
                validateAll rules (adjacentSiblingChecks leftSibling rightSibling) calls).
    { unfold DiffNode.validateUpdate, adjacentSiblingChecks, vbind, lift, vret.
      simpl. destruct (ok leftSibling), (ok rightSibling); simpl;
        unfold vbind, vret, storageValid; simpl;
        repeat match goal with
               | |- context [uassertStatusOK ?s] => destruct (uassertStatusOK s)
               | u : unit |- _ => destruct u
               end; reflexivity. }
    split; [exact E|]. rewrite E.
    destruct (validateAll_trace rules (adjacentSiblingChecks leftSibling rightSibling) calls)
      as (made & Hs & Hp & _ & Hr).
    exists made. auto.
  - intros -> Hl Hr. unfold DiffNode.validateUpdate, vbind, lift, vret.
    rewrite Hl, Hr. reflexivity.
  - intros doc doc' element elementPath r.
    unfold DiffNode.updateExistingElement.
    destruct (compareWithBSONElement doc element (DiffNode._val node) None false)
      as [c| |]; simpl; try discriminate.
    destruct (negb (Z.eqb c 0)); [intros [= <- <-]; auto|].
    destruct (invariant (ok (parent element))); simpl; try discriminate.
    destruct (negb (isType doc (parent element) Array)).
    + destruct (remove doc element) as [[st d]| |]; simpl; try discriminate.
      destruct (invariantOK st); simpl; try discriminate. intros [= <- _]. auto.
    + destruct (setValueNull doc element) as [[st d]| |]; simpl; try discriminate.
      destruct (invariantOK st); simpl; try discriminate. intros [= <- _]. auto.
Qed.

Lemma validateUpdate_checks_adjacent_siblings_only_witness :
  DiffNode.validateUpdate (fun _ => OK) (DiffNode.mk ("a.1", VInt 2)) (At [0; 1]%nat)
    (At [0; 0]%nat) (At [0; 2]%nat) 2 DiffNode.kNormalUpdate
    [mkCall (At [1]%nat) true 1] =
  (Returns tt,
   [mkCall (At [1]%nat) true 1;
    mkCall (At [0; 0]%nat) false 0; mkCall (At [0; 2]%nat) false 0]) /\
  DiffNode.validateUpdate
    (fun c => if bool_decide (elem c = At [0; 0]%nat) then BadValue else OK)
    (DiffNode.mk ("a.1", VInt 2)) (At [0; 1]%nat)
    (At [0; 0]%nat) (At [0; 2]%nat) 2 DiffNode.kNormalUpdate
    [mkCall (At [1]%nat) true 1] =
  (Throws BadValue, [mkCall (At [1]%nat) true 1; mkCall (At [0; 0]%nat) false 0]) /\
  DiffNode.validateUpdate
    (fun c => if bool_decide (elem c = At [0; 2]%nat) then BadValue else OK)
    (DiffNode.mk ("a.1", VInt 2)) (At [0; 1]%nat)
    End (At [0; 2]%nat) 2 DiffNode.kNormalUpdate
    [mkCall (At [1]%nat) true 1] =
  (Throws BadValue, [mkCall (At [1]%nat) true 1; mkCall (At [0; 2]%nat) false 0]) /\
  DiffNode.validateUpdate (fun _ => OK) (DiffNode.mk ("a.1", VInt 2)) (At [0; 1]%nat)
    (At [0; 0]%nat) (At [0; 2]%nat) 2 DiffNode.kNoOp
    [mkCall (At [1]%nat) true 1] =
  (Aborts, [mkCall (At [1]%nat) true 1]).
Proof.
  split; [|split; [|split]].
  - destruct (validateUpdate_checks_adjacent_siblings_only (fun _ => OK)
                (DiffNode.mk ("a.1", VInt 2)) (At [0; 1]%nat)
                (At [0; 0]%nat) (At [0; 2]%nat) 2 DiffNode.kNormalUpdate
                [mkCall (At [1]%nat) true 1]) as (_ & H & _).
    rewrite (proj1 (H eq_refl)). reflexivity.
  - destruct (validateUpdate_checks_adjacent_siblings_only
                (fun c => if bool_decide (elem c = At [0; 0]%nat) then BadValue else OK)
                (DiffNode.mk ("a.1", VInt 2)) (At [0; 1]%nat)
                (At [0; 0]%nat) (At [0; 2]%nat) 2 DiffNode.kNormalUpdate
                [mkCall (At [1]%nat) true 1]) as (_ & H & _).
    rewrite (proj1 (H eq_refl)). vm_compute. reflexivity.
  - destruct (validateUpdate_checks_adjacent_siblings_only
                (fun c => if bool_decide (elem c = At [0; 2]%nat) then BadValue else OK)
                (DiffNode.mk ("a.1", VInt 2)) (At [0; 1]%nat)
                End (At [0; 2]%nat) 2 DiffNode.kNormalUpdate
                [mkCall (At [1]%nat) true 1]) as (_ & H & _).
    rewrite (proj1 (H eq_refl)). vm_compute. reflexivity.
  - destruct (validateUpdate_checks_adjacent_siblings_only (fun _ => OK)
                (DiffNode.mk ("a.1", VInt 2)) (At [0; 1]%nat)
                (At [0; 0]%nat) (At [0; 2]%nat) 2 DiffNode.kNoOp
                [mkCall (At [1]%nat) true 1]) as (H & _).
    apply H. discriminate.
Defined.

(** C5, as the spec has it, fails after a null-substitution. In
    [{a: [1, 2, 3]}] with the target 2, [updateExistingElement] puts null at
    [a.1] and returns [kNormalUpdate]; [validateUpdate], given that result
    and the two siblings of [a.1], validates both of them. *)
Lemma siblings_validated_after_null_substitution :
  isType Examples.docArr (parent (At [0; 1]%nat)) Array = true /\
  DiffNode.updateExistingElement (DiffNode.mk ("a.1", VInt 2)) Examples.docArr
    (At [0; 1]%nat) ["a"; "1"] =
  Returns (DiffNode.kNormalUpdate, nulled Examples.docArr [0%nat] 1) /\
  DiffNode.validateUpdate (fun _ => OK) (DiffNode.mk ("a.1", VInt 2)) (At [0; 1]%nat)
    (leftSibling Examples.docArr (At [0; 1]%nat))
    (rightSibling Examples.docArr (At [0; 1]%nat)) 2 DiffNode.kNormalUpdate [] =
  (Returns tt, [mkCall (At [0; 0]%nat) false 0; mkCall (At [0; 2]%nat) false 0]) /\
  snd (DiffNode.validateUpdate (fun _ => OK) (DiffNode.mk ("a.1", VInt 2))
         (At [0; 1]%nat)
         (leftSibling Examples.docArr (At [0; 1]%nat))
         (rightSibling Examples.docArr (At [0; 1]%nat)) 2 DiffNode.kNormalUpdate [])
  <> [].
Proof.
  repeat split. vm_compute. discriminate.
Qed.

(** C6, as the code has it. [ModifierDiff::apply] guards the no-op state
    with a [dassert]: the call aborts in a debug build, and in other builds
    goes on to the tree primitives. [ModifierDiff::log] checks nothing and
    returns the status of the log builder. [DiffNode::logUpdate] and
    [DiffNode::validateUpdate] abort unless the result is [kNormalUpdate]. *)
Theorem assertions_of_the_two_conventions (m : ModifierDiff.t)
    (ps : ModifierDiff.PreparedState) (doc : Document) (lb : LogBuilder.t)
    (node : DiffNode.t) (pathTaken : string) (element : Element)
    (modifyResult : DiffNode.ModifyResult) (rules : Call -> Status)
    (leftSibling rightSibling : Element) (recursionLevel : nat) (calls : list Call) :
  ModifierDiff._preparedState m = Some ps ->
  (ModifierDiff.noOp ps = true -> ModifierDiff.apply true m doc = Aborts) /\
  ModifierDiff.apply false m doc =
    (if (ok (parent (ModifierDiff.elemFound ps))
         && bool_decide (getType doc (parent (ModifierDiff.elemFound ps)) = Array))%bool
     then setValueNull doc (ModifierDiff.elemFound ps)
     else remove doc (ModifierDiff.elemFound ps)) /\
  ModifierDiff.log m lb =
    Returns (LogBuilder.addToUnsets lb (FieldRef.dottedField (ModifierDiff._updatePath m))) /\
  (modifyResult <> DiffNode.kNormalUpdate ->
   DiffNode.logUpdate node (Some lb) pathTaken element modifyResult = Aborts /\
   DiffNode.validateUpdate rules node element leftSibling rightSibling recursionLevel
     modifyResult calls = (Aborts, calls)).
Proof.
  intros Hps. split; [|split; [|split]].
  - intros Hn. unfold ModifierDiff.apply. rewrite Hps, Hn. reflexivity.
  - unfold ModifierDiff.apply. rewrite Hps. reflexivity.
  - reflexivity.
  - intros Hr. unfold DiffNode.logUpdate, DiffNode.validateUpdate, vbind, lift.
    rewrite bool_decide_eq_false_2 by exact Hr. split; reflexivity.
Qed.

Lemma assertions_of_the_two_conventions_witness :
  ModifierDiff.apply true
    (ModifierDiff.mk ["a"; "b"] 0 ("a.b", VInt 7)
       (Some (ModifierDiff.mkPreparedState 1 (At [0; 0]%nat) true)))
    Examples.docAB = Aborts /\
  DiffNode.logUpdate (DiffNode.mk ("a.b", VInt 7)) (Some (LogBuilder.mk [] true))
    "a.b" (At [0; 0]%nat) DiffNode.kNoOp = Aborts.
Proof.
  destruct (assertions_of_the_two_conventions
              (ModifierDiff.mk ["a"; "b"] 0 ("a.b", VInt 7)
                 (Some (ModifierDiff.mkPreparedState 1 (At [0; 0]%nat) true)))
              (ModifierDiff.mkPreparedState 1 (At [0; 0]%nat) true)
              Examples.docAB (LogBuilder.mk [] true) (DiffNode.mk ("a.b", VInt 7))
              "a.b" (At [0; 0]%nat) DiffNode.kNoOp (fun _ => OK) End End 2 []
              eq_refl) as (Ha & _ & _ & Hl).
  split; [exact (Ha eq_refl) | apply Hl; discriminate].
Defined.

(** C6, as the spec has it, fails for [ModifierDiff::log]. After a
    [prepare] that decided no-op, and with no [apply] in between, [log]
    returns normally, with an OK status and a new log entry. *)
Lemma log_without_apply_returns :
  ModifierDiff.prepare (Examples.modifierFor "a.b" (VInt 7)) Examples.docAB (At []) EmptyString
    Examples.noExecInfo =
  Returns (OK,
           ModifierDiff.mk ["a"; "b"] 0 ("a.b", VInt 7)
             (Some (ModifierDiff.mkPreparedState 1 (At [0; 0]%nat) true)),
           ModifierDiff.mkExecInfo (Some ["a"; "b"]) true) /\
  ModifierDiff.log
    (ModifierDiff.mk ["a"; "b"] 0 ("a.b", VInt 7)
       (Some (ModifierDiff.mkPreparedState 1 (At [0; 0]%nat) true)))
    (LogBuilder.mk [] true) = Returns (OK, LogBuilder.mk ["a.b"] true) /\
  ModifierDiff.log
    (ModifierDiff.mk ["a"; "b"] 0 ("a.b", VInt 7)
       (Some (ModifierDiff.mkPreparedState 1 (At [0; 0]%nat) true)))
    (LogBuilder.mk [] true) <> Aborts.
Proof.
  split; [vm_compute; reflexivity|]. split; [reflexivity | discriminate].
Qed.

End Protocol.

(** ** Names and collators *)

Section Comparison.

Import mutablebson.

Lemma woCompare_ignores_names (n1 n1' n2 n2' : string) (v w : Value)
    (c : option CollatorInterface) :
  woCompare (n1, v) (n2, w) false c = woCompare (n1', v) (n2', w) false c.
Proof. reflexivity. Qed.

(** C8. The comparison that decides the no-op does not look at names and
    does not depend on a collator. For [DiffNode]: two elements with the same
    value, under any keys, with the target under any name and any collator
    set on the node, are classified alike. For [ModifierDiff]: [init] yields
    the same modifier whatever the options (and so whatever collator) it is
    given, and after [prepare] has located two elements with the same value
    for targets with the same value, the no-op flags are the same. *)
Theorem decision_ignores_names_and_collators :
  (forall (node : DiffNode.t) (doc1 doc2 : Document) (e1 e2 : Element)
          (n1 n2 name' : string) (v : Value) (p1 p2 : FieldRef.t)
          (c : option CollatorInterface),
      resolve doc1 e1 = Some (n1, v) ->
      resolve doc2 e2 = Some (n2, v) ->
      classifiedNoOp (DiffNode.updateExistingElement node doc1 e1 p1) =
      classifiedNoOp
        (DiffNode.updateExistingElement
           (DiffNode.setCollator (DiffNode.mk (name', value (DiffNode._val node))) c)
           doc2 e2 p2)) /\
  (forall (m : ModifierDiff.t) (modExpr : BSONElement) (opts1 opts2 : ModifierDiff.Options)
          (positional : bool),
      ModifierDiff.init m modExpr opts1 positional =
      ModifierDiff.init m modExpr opts2 positional) /\
  (forall (m1 m2 : ModifierDiff.t) (doc1 doc2 : Document) (root1 root2 : Element)
          (matched1 matched2 : string) (ex1 ex2 : ModifierDiff.ExecInfo)
          (m1' m2' : ModifierDiff.t) (ex1' ex2' : ModifierDiff.ExecInfo)
          (ps1 ps2 : ModifierDiff.PreparedState) (n1 n2 : string) (v : Value),
      value (ModifierDiff._val m1) = value (ModifierDiff._val m2) ->
      ModifierDiff.prepare m1 doc1 root1 matched1 ex1 = Returns (OK, m1', ex1') ->
      ModifierDiff.prepare m2 doc2 root2 matched2 ex2 = Returns (OK, m2', ex2') ->
      ModifierDiff._preparedState m1' = Some ps1 ->
      ModifierDiff._preparedState m2' = Some ps2 ->
      ModifierDiff.destExists m1' (ModifierDiff.idxFound ps1)
        (ModifierDiff.elemFound ps1) = true ->
      ModifierDiff.destExists m2' (ModifierDiff.idxFound ps2)
        (ModifierDiff.elemFound ps2) = true ->
      resolve doc1 (ModifierDiff.elemFound ps1) = Some (n1, v) ->
      resolve doc2 (ModifierDiff.elemFound ps2) = Some (n2, v) ->
      ModifierDiff.noOp ps1 = ModifierDiff.noOp ps2 /\
      ModifierDiff.execNoOp ex1' = ModifierDiff.execNoOp ex2').
Proof.
  split; [|split].
  - intros node doc1 doc2 e1 e2 n1 n2 name' v p1 p2 c H1 H2.
    unfold DiffNode.setCollator, DiffNode.updateExistingElement, compareWithBSONElement.
    rewrite H1, H2. simpl.
    destruct (DiffNode._val node) as [tn tv]. simpl.
    rewrite (woCompare_ignores_names n1 n2 tn name' v tv None).
    destruct (negb (Z.eqb (woCompare (n2, v) (name', tv) false None) 0)); [reflexivity|].
    destruct (invariant (ok (parent e1))), (invariant (ok (parent e2))); simpl;
      repeat match goal with
             | |- context [if ?b then _ else _] => destruct b; simpl
             | |- context [remove ?d ?e] => destruct (remove d e) as [[[] ?]| |]; simpl
             | |- context [setValueNull ?d ?e] =>
                 destruct (setValueNull d e) as [[[] ?]| |]; simpl
             end; reflexivity.
  - reflexivity.
  - intros m1 m2 doc1 doc2 root1 root2 matched1 matched2 ex1 ex2 m1' m2' ex1' ex2'
           ps1 ps2 n1 n2 v Hv Hp1 Hp2 Hs1 Hs2 Hd1 Hd2 Hr1 Hr2.
    destruct (prepare_located _ _ _ _ _ _ _ _ Hp1 Hs1 Hd1)
      as (pp1 & k1 & x1 & He1 & Hx1 & Hn1 & Hex1 & _).
    destruct (prepare_located _ _ _ _ _ _ _ _ Hp2 Hs2 Hd2)
      as (pp2 & k2 & x2 & He2 & Hx2 & Hn2 & Hex2 & _).
    rewrite He1, Hx1 in Hr1. rewrite He2, Hx2 in Hr2.
    injection Hr1 as ->. injection Hr2 as ->.
    rewrite Hex1, Hex2, Hn1, Hn2.
    destruct (ModifierDiff._val m1) as [t1 w1], (ModifierDiff._val m2) as [t2 w2].
    simpl in Hv. subst w2.
    rewrite (woCompare_ignores_names n1 n2 t1 t2 v w1 None). auto.
Qed.

Lemma decision_ignores_names_and_collators_witness :
  classifiedNoOp
    (DiffNode.updateExistingElement (DiffNode.mk ("a.b", VInt 5)) Examples.docAB
       (At [0; 0]%nat) ["a"; "b"]) =
  classifiedNoOp
    (DiffNode.updateExistingElement
       (DiffNode.setCollator (DiffNode.mk ("other", VInt 5)) (Some Examples.allEqual))
       (mkDocument (VObject [("zzz", VInt 5)])) (At [0%nat]) ["zzz"]).
Proof.
  apply (proj1 decision_ignores_names_and_collators (DiffNode.mk ("a.b", VInt 5))
           Examples.docAB (mkDocument (VObject [("zzz", VInt 5)]))
           (At [0; 0]%nat) (At [0%nat]) "b" "zzz" "other" (VInt 5));
    reflexivity.
Defined.

(** The comparison itself does tell names and collators apart when it is
    asked to: it is the arguments that the two modifiers pass that make the
    decision blind to them. *)
Example names_matter_when_considered :
  woCompare ("b", VInt 5) ("a.b", VInt 5) true None <> 0 /\
  woCompare ("b", VInt 5) ("a.b", VInt 5) false None = 0.
Proof. split; [vm_compute; discriminate | reflexivity]. Qed.

Example collator_matters_when_passed :
  woCompare ("s", VString "abc") ("s", VString "ABC") false (Some Examples.allEqual) = 0 /\
  woCompare ("s", VString "abc") ("s", VString "ABC") false None <> 0.
Proof. split; [reflexivity | vm_compute; discriminate]. Qed.

End Comparison.

(** ** The scenarios of the specification *)

Section Scenarios.

Import mutablebson.

(** [{a: {b: 5}}], path [a.b], target 5: the field goes. *)
Example scenario_object_match :
  runModifierDiff true (Examples.modifierFor "a.b" (VInt 5)) Examples.docAB (At []) EmptyString
    Examples.noExecInfo =
  Returns (OK, false, mkDocument (VObject [("a", VObject [])])).
Proof. vm_compute. reflexivity. Qed.

(** [{a: {b: 5}}], path [a.b], target 7: nothing changes. *)
Example scenario_object_mismatch :
  runModifierDiff true (Examples.modifierFor "a.b" (VInt 7)) Examples.docAB (At []) EmptyString
    Examples.noExecInfo =
  Returns (OK, true, Examples.docAB).
Proof. vm_compute. reflexivity. Qed.

(** [{a: [1, 2, 3]}], path [a.1], target 2: null takes the place. *)
Example scenario_array_match :
  runModifierDiff true (Examples.modifierFor "a.1" (VInt 2)) Examples.docArr (At []) EmptyString
    Examples.noExecInfo =
  Returns (OK, false,
           mkDocument
             (VObject [("a", VArray [("0", VInt 1); ("1", VNull); ("2", VInt 3)])])).
Proof. vm_compute. reflexivity. Qed.

(** [{a: {b: 5}}], path [a.c]: only [a] exists, the operation is a no-op. *)
Example scenario_absent_field :
  runModifierDiff true (Examples.modifierFor "a.c" (VInt 5)) Examples.docAB (At []) EmptyString
    Examples.noExecInfo =
  Returns (OK, true, Examples.docAB).
Proof. vm_compute. reflexivity. Qed.

(** Path [a.$.b] with the matched field [2] is the path [a.2.b]. *)
Example scenario_positional :
  runModifierDiff true (Examples.modifierFor "a.$.b" (VInt 9))
    (mkDocument
       (VObject [("a", VArray [("0", VObject [("b", VInt 1)]);
                               ("1", VObject [("b", VInt 2)]);
                               ("2", VObject [("b", VInt 9)])])]))
    (At []) "2" Examples.noExecInfo =
  Returns (OK, false,
           mkDocument
             (VObject [("a", VArray [("0", VObject [("b", VInt 1)]);
                                     ("1", VObject [("b", VInt 2)]);
                                     ("2", VObject [])])])).
Proof. vm_compute. reflexivity. Qed.

(** Path [a.$.b.$.c] is refused by [init]. *)
Example scenario_two_placeholders :
  fst (fst (ModifierDiff.init ModifierDiff.new ("a.$.b.$.c", VInt 9)
              Examples.noOptions false)) = BadValue.
Proof. reflexivity. Qed.

(** Path [a.$.b] with no matched field is refused by [prepare]. *)
Example scenario_missing_match :
  runModifierDiff true (Examples.modifierFor "a.$.b" (VInt 9)) Examples.docArr (At []) EmptyString
    Examples.noExecInfo =
  Returns (BadValue, false, Examples.docArr).
Proof. vm_compute. reflexivity. Qed.

End Scenarios.

(** ** [ModifierDiff::init] *)

Section Init.

Import mutablebson.

Lemma isPositionalPart_spec (part : string) :
  fieldchecker.isPositionalPart part = true <-> part = "$".
Proof. unfold fieldchecker.isPositionalPart. apply String.eqb_eq. Qed.

Lemma scanPositional_count (parts : list string) :
  forall i pos count : nat,
    snd (fieldchecker.scanPositional parts i pos count) =
    (count + placeholderCount parts)%nat.
Proof.
  unfold placeholderCount.
  induction parts as [|part rest IH]; intros i pos count; simpl; [lia|].
  destruct (fieldchecker.isPositionalPart part); rewrite IH; simpl; lia.
Qed.

Lemma scanPositional_pos_kept (parts : list string) :
  forall i pos count : nat,
    count <> 0%nat \/ placeholderCount parts = 0%nat ->
    fst (fieldchecker.scanPositional parts i pos count) = pos.
Proof.
  unfold placeholderCount.
  induction parts as [|part rest IH]; intros i pos count H; simpl; [reflexivity|].
  simpl in H. destruct (fieldchecker.isPositionalPart part).
  - destruct H as [H|H]; [|simpl in H; lia].
    rewrite IH by (left; lia).
    destruct count; [congruence | reflexivity].
  - apply IH, H.
Qed.

(** With no placeholder seen so far, the position that the scan writes is
    the index of the first placeholder part. *)
Lemma scanPositional_pos_first (parts : list string) :
  forall i pos : nat,
    placeholderCount parts <> 0%nat ->
    exists j : nat,
      fst (fieldchecker.scanPositional parts i pos 0) = (i + j)%nat /\
      parts !! j = Some "$" /\
      forall j' part, (j' < j)%nat -> parts !! j' = Some part -> part <> "$".
Proof.
  unfold placeholderCount.
  induction parts as [|part rest IH]; intros i pos H; simpl in *; [congruence|].
  destruct (fieldchecker.isPositionalPart part) eqn:Hp.
  - exists 0%nat. rewrite scanPositional_pos_kept by (left; lia). simpl.
    apply isPositionalPart_spec in Hp. subst part.
    split; [lia|]. split; [reflexivity|]. intros j' part Hlt. lia.
  - destruct (IH (S i) pos H) as (j & Hj & Hat & Hbefore).
    exists (S j). split; [rewrite Hj; lia|]. split; [exact Hat|].
    intros [|j'] part' Hlt; simpl.
    + intros [= <-] ->. discriminate Hp.
    + apply Hbefore. lia.
Qed.

(** X1. A path that the field checker accepts and that holds more than one
    placeholder part is refused by [init] with [BadValue]; the target is not
    stored and the prepared state is left alone. *)
Theorem init_refuses_repeated_placeholder (m : ModifierDiff.t) (modExpr : BSONElement)
    (opts : ModifierDiff.Options) (positional : bool) :
  fieldchecker.isUpdatable (FieldRef.parse (fieldName modExpr)) = OK ->
  (2 <= placeholderCount (FieldRef.parse (fieldName modExpr)))%nat ->
  exists m' : ModifierDiff.t,
    ModifierDiff.init m modExpr opts positional = (BadValue, m', true) /\
    ModifierDiff._val m' = ModifierDiff._val m /\
    ModifierDiff._preparedState m' = ModifierDiff._preparedState m.
Proof.
  intros Hu Hc. unfold ModifierDiff.init, fieldchecker.isPositional. simpl.
  rewrite Hu. simpl.
  destruct (fieldchecker.scanPositional (FieldRef.parse (fieldName modExpr)) 0
              (ModifierDiff._pathReplacementPosition m) 0) as [pos count] eqn:Hs.
  assert (Hcount : count = placeholderCount (FieldRef.parse (fieldName modExpr))).
  { change count with (snd (pos, count)). rewrite <- Hs, scanPositional_count.
    reflexivity. }
  destruct count as [|[|count]]; try lia. simpl.
  eexists. split; [reflexivity|]. simpl. auto.
Qed.

Lemma init_refuses_repeated_placeholder_witness :
  exists m' : ModifierDiff.t,
    ModifierDiff.init ModifierDiff.new ("a.$.b.$.c", VInt 9) Examples.noOptions false =
    (BadValue, m', true) /\
    ModifierDiff._val m' = (EmptyString, VEOO) /\
    ModifierDiff._preparedState m' = None.
Proof.
  apply (init_refuses_repeated_placeholder ModifierDiff.new ("a.$.b.$.c", VInt 9)
           Examples.noOptions false).
  - reflexivity.
  - vm_compute. lia.
Defined.

(** X2. For a path that the field checker accepts and that holds at most
    one placeholder part, [init] succeeds: it stores the parsed path and the
    target, reports whether there is a placeholder, and records as the
    replacement position the index of that placeholder; with no placeholder
    the position is left as it was. *)
Theorem init_accepts_and_records_placeholder (m : ModifierDiff.t)
    (modExpr : BSONElement) (opts : ModifierDiff.Options) (positional : bool) :
  fieldchecker.isUpdatable (FieldRef.parse (fieldName modExpr)) = OK ->
  (placeholderCount (FieldRef.parse (fieldName modExpr)) <= 1)%nat ->
  exists pos : nat,
    ModifierDiff.init m modExpr opts positional =
    (OK,
     ModifierDiff.mk (FieldRef.parse (fieldName modExpr)) pos modExpr
       (ModifierDiff._preparedState m),
     Nat.eqb (placeholderCount (FieldRef.parse (fieldName modExpr))) 1) /\
    (placeholderCount (FieldRef.parse (fieldName modExpr)) = 0%nat ->
     pos = ModifierDiff._pathReplacementPosition m) /\
    (placeholderCount (FieldRef.parse (fieldName modExpr)) = 1%nat ->
     FieldRef.parse (fieldName modExpr) !! pos = Some "$" /\
     forall j part, (j < pos)%nat ->
       FieldRef.parse (fieldName modExpr) !! j = Some part -> part <> "$").
Proof.
  intros Hu Hc. unfold ModifierDiff.init, fieldchecker.isPositional. simpl.
  rewrite Hu. simpl.
  destruct (fieldchecker.scanPositional (FieldRef.parse (fieldName modExpr)) 0
              (ModifierDiff._pathReplacementPosition m) 0) as [pos count] eqn:Hs.
  assert (Hcount : count = placeholderCount (FieldRef.parse (fieldName modExpr))).
  { change count with (snd (pos, count)). rewrite <- Hs, scanPositional_count.
    reflexivity. }
  assert (Hpos : pos = fst (fieldchecker.scanPositional
                              (FieldRef.parse (fieldName modExpr)) 0
                              (ModifierDiff._pathReplacementPosition m) 0))
    by (rewrite Hs; reflexivity).
  exists pos. rewrite <- Hcount.
  destruct count as [|[|count]]; try lia; simpl.
  - split; [reflexivity|]. split; [|intros [=]].
    intros _. rewrite Hpos. apply scanPositional_pos_kept. right. auto.
  - split; [reflexivity|]. split; [intros [=]|]. intros _.
    destruct (scanPositional_pos_first (FieldRef.parse (fieldName modExpr)) 0
                (ModifierDiff._pathReplacementPosition m)) as (j & Hj & Hat & Hb);
      [lia|].
    rewrite Hpos, Hj. simpl. split; [exact Hat | exact Hb].
Qed.

Lemma init_accepts_and_records_placeholder_witness :
  exists pos : nat,
    ModifierDiff.init ModifierDiff.new ("a.$.b", VInt 9) Examples.noOptions false =
    (OK, ModifierDiff.mk ["a"; "$"; "b"] pos ("a.$.b", VInt 9) None, true) /\
    (1%nat = 0%nat -> pos = 0%nat) /\
    (1%nat = 1%nat ->
     ["a"; "$"; "b"] !! pos = Some "$" /\
     forall j part, (j < pos)%nat -> ["a"; "$"; "b"] !! j = Some part -> part <> "$").
Proof.
  apply (init_accepts_and_records_placeholder ModifierDiff.new ("a.$.b", VInt 9)
           Examples.noOptions false).
  - reflexivity.
  - vm_compute. lia.
Defined.

End Init.

(** ** [ModifierDiff::prepare], beyond the no-op decision *)

Section PrepareMore.

Import mutablebson.

#[local] Arguments pathsupport.findLongestPrefix : simpl never.
#[local] Arguments compareWithBSONElement : simpl never.
#[local] Arguments size_t_sub : simpl never.

Lemma findLongestPrefix_status (prefix : FieldRef.t) (doc : Document) (root : Element)
    (i0 : nat) (e0 : Element) (s : Status) (idx : nat) (e : Element) :
  pathsupport.findLongestPrefix prefix doc root i0 e0 = (s, idx, e) ->
  s = OK \/ s = NonExistentPath \/ s = PathNotViable.
Proof.
  unfold pathsupport.findLongestPrefix.
  destruct (negb (hasChildren doc root) || Nat.eqb (FieldRef.numParts prefix) 0)%bool;
    [intros [= <- _ _]; auto|].
  destruct (pathsupport.walk doc prefix 0 root root) as [[[i curr] prev] viable].
  destruct (Nat.eqb i 0); [intros [= <- _ _]; auto|].
  destruct (negb viable); [intros [= <- _ _]; auto|].
  destruct (ok curr); intros [= <- _ _]; auto.
Qed.

(** What a call of [prepare] leaves in the modifier, whatever its status. *)
Lemma prepare_modifier (m : ModifierDiff.t) (doc : Document) (root : Element)
    (matchedField : string) (ex : ModifierDiff.ExecInfo)
    (st : Status) (m' : ModifierDiff.t) (ex' : ModifierDiff.ExecInfo) :
  ModifierDiff.prepare m doc root matchedField ex = Returns (st, m', ex') ->
  ModifierDiff._pathReplacementPosition m' = ModifierDiff._pathReplacementPosition m /\
  ModifierDiff._val m' = ModifierDiff._val m /\
  ModifierDiff._updatePath m' =
    (if missingMatch m matchedField then ModifierDiff._updatePath m
     else boundPath m matchedField).
Proof.
  destruct (missingMatch m matchedField) eqn:Hmm.
  { rewrite (prepare_missingMatch _ _ _ _ _ Hmm). intros [= <- <- <-]. auto. }
  destruct (pathsupport.findLongestPrefix (boundPath m matchedField) doc root 0 End)
    as [[s idx] e] eqn:Hf.
  rewrite (prepare_bound _ _ _ _ _ _ _ _ Hmm Hf). cbv zeta.
  destruct (bool_decide (s = NonExistentPath) || isOK s)%bool;
    [|intros [= <- <- <-]; auto].
  destruct (negb (ModifierDiff.destExists _ idx _)); [intros [= <- <- <-]; auto|].
  destruct (compareWithBSONElement doc _ (ModifierDiff._val m) None false);
    simpl; intros [= <- <- <-]; auto.
Qed.

(** X3. [prepare] always returns, and with one of three statuses: OK, the
    missing-match [BadValue], or the locator's [PathNotViable]. It never
    stops at an assertion: the element it compares is one that the locator
    found in the document. *)
Theorem prepare_returns_one_of_three_statuses (m : ModifierDiff.t) (doc : Document)
    (root : Element) (matchedField : string) (ex : ModifierDiff.ExecInfo) :
  exists (st : Status) (m' : ModifierDiff.t) (ex' : ModifierDiff.ExecInfo),
    ModifierDiff.prepare m doc root matchedField ex = Returns (st, m', ex') /\
    (st = OK \/ st = BadValue \/ st = PathNotViable) /\
    (st = BadValue <-> missingMatch m matchedField = true).
Proof.
  destruct (missingMatch m matchedField) eqn:Hmm.
  { rewrite (prepare_missingMatch _ _ _ _ _ Hmm). do 3 eexists.
    split; [reflexivity|]. split; [auto|]. split; auto. }
  destruct (pathsupport.findLongestPrefix (boundPath m matchedField) doc root 0 End)
    as [[s idx] e] eqn:Hf.
  rewrite (prepare_bound _ _ _ _ _ _ _ _ Hmm Hf). cbv zeta.
  destruct (findLongestPrefix_status _ _ _ _ _ _ _ _ Hf) as [-> | [-> | ->]]; simpl.
  - destruct (findLongestPrefix_OK _ _ _ _ _ _ _ Hf) as (pp & k & x & -> & Hx).
    destruct (negb (ModifierDiff.destExists _ idx (At (pp ++ [k])))).
    + do 3 eexists. split; [reflexivity|]. split; [auto|]. split; discriminate.
    + rewrite (compare_attached _ _ _ _ Hx). simpl.
      do 3 eexists. split; [reflexivity|]. split; [auto|]. split; discriminate.
  - unfold ModifierDiff.destExists. simpl.
    do 3 eexists. split; [reflexivity|]. split; [auto|]. split; discriminate.
  - do 3 eexists. split; [reflexivity|]. split; [auto|]. split; discriminate.
Qed.

(** X4. When [prepare] returns OK it has published the bound path in the
    execution info, whether or not the operation is a no-op, and the no-op
    flag of the execution info is that of the prepared state; when it returns
    an error the execution info is as it was. *)
Theorem prepare_publishes_bound_path (m : ModifierDiff.t) (doc : Document)
    (root : Element) (matchedField : string) (ex : ModifierDiff.ExecInfo)
    (st : Status) (m' : ModifierDiff.t) (ex' : ModifierDiff.ExecInfo) :
  ModifierDiff.prepare m doc root matchedField ex = Returns (st, m', ex') ->
  (st = OK ->
   ModifierDiff.fieldRef0 ex' = Some (boundPath m matchedField) /\
   ModifierDiff._updatePath m' = boundPath m matchedField /\
   exists ps : ModifierDiff.PreparedState,
     ModifierDiff._preparedState m' = Some ps /\
     ModifierDiff.execNoOp ex' = ModifierDiff.noOp ps) /\
  (st <> OK -> ex' = ex).
Proof.
  destruct (missingMatch m matchedField) eqn:Hmm.
  { rewrite (prepare_missingMatch _ _ _ _ _ Hmm). intros [= <- <- <-].
    split; [discriminate | reflexivity]. }
  destruct (pathsupport.findLongestPrefix (boundPath m matchedField) doc root 0 End)
    as [[s idx] e] eqn:Hf.
  rewrite (prepare_bound _ _ _ _ _ _ _ _ Hmm Hf). cbv zeta.
  destruct (bool_decide (s = NonExistentPath) || isOK s)%bool eqn:Hs.
  - destruct (negb (ModifierDiff.destExists _ idx _)).
    + intros [= <- <- <-]. split; [|congruence]. intros _. simpl. eauto.
    + destruct (compareWithBSONElement doc _ (ModifierDiff._val m) None false);
        simpl; intros [= <- <- <-]. split; [|congruence]. intros _. simpl. eauto.
  - intros [= <- <- <-]. split; [|reflexivity]. intros ->.
    rewrite orb_true_r in Hs. discriminate Hs.
Qed.

Lemma prepare_publishes_bound_path_witness :
  ModifierDiff.fieldRef0 (ModifierDiff.mkExecInfo (Some ["a"; "2"; "b"]) false) =
  Some (boundPath (Examples.modifierFor "a.$.b" (VInt 9)) "2").
Proof.
  apply (prepare_publishes_bound_path (Examples.modifierFor "a.$.b" (VInt 9))
           Examples.docArrObj (At []) "2" Examples.noExecInfo OK
           (ModifierDiff.mk ["a"; "2"; "b"] 1 ("a.$.b", VInt 9)
              (Some (ModifierDiff.mkPreparedState 2 (At [0; 2; 0]%nat) false)))
           (ModifierDiff.mkExecInfo (Some ["a"; "2"; "b"]) false)).
  - vm_compute. reflexivity.
  - reflexivity.
Defined.

(** X5. What [prepare] does for a document does not depend on the documents
    prepared before: the recorded position is kept and each new binding
    overwrites the part that the previous one wrote, so a second [prepare]
    gives what it would have given on the modifier as [init] left it. *)
Theorem prepare_forgets_earlier_documents (m : ModifierDiff.t)
    (doc1 doc2 : Document) (root1 root2 : Element) (matched1 matched2 : string)
    (ex1 ex2 : ModifierDiff.ExecInfo)
    (st1 : Status) (m1 : ModifierDiff.t) (ex1' : ModifierDiff.ExecInfo) :
  ModifierDiff.prepare m doc1 root1 matched1 ex1 = Returns (st1, m1, ex1') ->
  missingMatch m matched2 = false ->
  ModifierDiff.prepare m1 doc2 root2 matched2 ex2 =
  ModifierDiff.prepare m doc2 root2 matched2 ex2.
Proof.
  intros Hp Hmm2.
  destruct (prepare_modifier _ _ _ _ _ _ _ _ Hp) as (Hpos & Hval & Hpath).
  assert (Hmm1 : missingMatch m1 matched2 = false)
    by (unfold missingMatch in *; rewrite Hpos; exact Hmm2).
  assert (Hb : boundPath m1 matched2 = boundPath m matched2).
  { unfold boundPath. rewrite Hpos, Hpath.
    destruct (negb (Nat.eqb (ModifierDiff._pathReplacementPosition m) 0)) eqn:Hz.
    - unfold boundPath. rewrite Hz. unfold FieldRef.setPart.
      destruct (missingMatch m matched1); [reflexivity|].
      apply list_insert_insert_eq.
    - unfold missingMatch, boundPath. rewrite Hz. reflexivity. }
  destruct (pathsupport.findLongestPrefix (boundPath m matched2) doc2 root2 0 End)
    as [[s idx] e] eqn:Hf.
  rewrite (prepare_bound m _ _ _ _ _ _ _ Hmm2 Hf).
  rewrite <- Hb in Hf.
  rewrite (prepare_bound m1 _ _ _ _ _ _ _ Hmm1 Hf).
  rewrite Hb, Hpos, Hval. reflexivity.
Qed.

Lemma prepare_forgets_earlier_documents_witness :
  ModifierDiff.prepare
    (ModifierDiff.mk ["a"; "2"; "b"] 1 ("a.$.b", VInt 9)
       (Some (ModifierDiff.mkPreparedState 2 (At [0; 2; 0]%nat) false)))
    Examples.docAB (At []) "0" Examples.noExecInfo =
  ModifierDiff.prepare (Examples.modifierFor "a.$.b" (VInt 9))
    Examples.docAB (At []) "0" Examples.noExecInfo.
Proof.
  apply (prepare_forgets_earlier_documents (Examples.modifierFor "a.$.b" (VInt 9))
           Examples.docArrObj Examples.docAB (At []) (At []) "2" "0"
           Examples.noExecInfo Examples.noExecInfo OK _
           (ModifierDiff.mkExecInfo (Some ["a"; "2"; "b"]) false)).
  - vm_compute. reflexivity.
  - reflexivity.
Defined.

End PrepareMore.

(** ** From [init] to [prepare] to [apply] *)

Section Cycle.

Import mutablebson.

#[local] Arguments pathsupport.findLongestPrefix : simpl never.
#[local] Arguments compareWithBSONElement : simpl never.
#[local] Arguments size_t_sub : simpl never.
#[local] Arguments parent : simpl never.
#[local] Arguments remove : simpl never.
#[local] Arguments setValueNull : simpl never.
#[local] Arguments isType : simpl never.

(** What a successful [init] that reports a placeholder has stored. *)
Lemma init_positional_inv (m0 : ModifierDiff.t) (modExpr : BSONElement)
    (opts : ModifierDiff.Options) (positional : bool) (m : ModifierDiff.t) :
  ModifierDiff.init m0 modExpr opts positional = (OK, m, true) ->
  ModifierDiff._updatePath m = FieldRef.parse (fieldName modExpr) /\
  ModifierDiff._val m = modExpr /\
  FieldRef.parse (fieldName modExpr) !! ModifierDiff._pathReplacementPosition m = Some "$" /\
  forall j part, (j < ModifierDiff._pathReplacementPosition m)%nat ->
    FieldRef.parse (fieldName modExpr) !! j = Some part -> part <> "$".
Proof.
  unfold ModifierDiff.init, fieldchecker.isPositional. simpl.
  destruct (isOK (fieldchecker.isUpdatable (FieldRef.parse (fieldName modExpr)))) eqn:Hu;
    simpl; [|intros [= E _ _]; rewrite E in Hu; discriminate Hu].
  destruct (fieldchecker.scanPositional (FieldRef.parse (fieldName modExpr)) 0
              (ModifierDiff._pathReplacementPosition m0) 0) as [pos count] eqn:Hs.
  assert (Hcount : count = placeholderCount (FieldRef.parse (fieldName modExpr))).
  { change count with (snd (pos, count)). rewrite <- Hs, scanPositional_count.
    reflexivity. }
  assert (Hpos : pos = fst (fieldchecker.scanPositional
                              (FieldRef.parse (fieldName modExpr)) 0
                              (ModifierDiff._pathReplacementPosition m0) 0))
    by (rewrite Hs; reflexivity).
  destruct count as [|[|count]]; simpl; intros [= <-].
  simpl. split; [reflexivity|]. split; [reflexivity|].
  destruct (scanPositional_pos_first (FieldRef.parse (fieldName modExpr)) 0
              (ModifierDiff._pathReplacementPosition m0)) as (j & Hj & Hat & Hb);
    [lia|].
  rewrite Hpos, Hj. simpl. split; [exact Hat | exact Hb].
Qed.

(** X6. After an [init] that reported a placeholder which is not the first
    part of the path, [prepare] with an empty matched field returns
    [BadValue] for every document, with the execution info untouched. *)
Theorem missing_match_is_refused_after_init (m0 : ModifierDiff.t)
    (modExpr : BSONElement) (opts : ModifierDiff.Options) (positional : bool)
    (m : ModifierDiff.t) (doc : Document) (root : Element)
    (ex : ModifierDiff.ExecInfo) :
  ModifierDiff.init m0 modExpr opts positional = (OK, m, true) ->
  (forall part, FieldRef.parse (fieldName modExpr) !! 0%nat = Some part -> part <> "$") ->
  ModifierDiff.prepare m doc root EmptyString ex =
  Returns (BadValue,
           ModifierDiff.mk (FieldRef.parse (fieldName modExpr))
             (ModifierDiff._pathReplacementPosition m) modExpr
             (Some (ModifierDiff.newPreparedState doc)),
           ex).
Proof.
  intros Hi Hfirst.
  destruct (init_positional_inv _ _ _ _ _ Hi) as (Hpath & Hval & Hat & _).
  rewrite <- Hpath, <- Hval. apply prepare_missingMatch.
  unfold missingMatch. rewrite andb_true_r.
  destruct (ModifierDiff._pathReplacementPosition m); [|reflexivity].
  exfalso. exact (Hfirst _ Hat eq_refl).
Qed.

Lemma missing_match_is_refused_after_init_witness :
  ModifierDiff.prepare (Examples.modifierFor "a.$.b" (VInt 9)) Examples.docArrObj
    (At []) EmptyString Examples.noExecInfo =
  Returns (BadValue,
           ModifierDiff.mk (FieldRef.parse "a.$.b")
             (ModifierDiff._pathReplacementPosition
                (Examples.modifierFor "a.$.b" (VInt 9)))
             ("a.$.b", VInt 9)
             (Some (ModifierDiff.newPreparedState Examples.docArrObj)),
           Examples.noExecInfo).
Proof.
  apply (missing_match_is_refused_after_init ModifierDiff.new ("a.$.b", VInt 9)
           Examples.noOptions false).
  - reflexivity.
  - intros part [= <-]. discriminate.
Defined.

(** X7. After such an [init], [prepare] with a matched field writes the
    matched field over the placeholder part and over nothing else: the path
    keeps its length and its other parts. *)
Theorem placeholder_is_bound_to_matched_field (m0 : ModifierDiff.t)
    (modExpr : BSONElement) (opts : ModifierDiff.Options) (positional : bool)
    (m : ModifierDiff.t) (doc : Document) (root : Element) (matchedField : string)
    (ex : ModifierDiff.ExecInfo)
    (st : Status) (m' : ModifierDiff.t) (ex' : ModifierDiff.ExecInfo) :
  ModifierDiff.init m0 modExpr opts positional = (OK, m, true) ->
  (forall part, FieldRef.parse (fieldName modExpr) !! 0%nat = Some part -> part <> "$") ->
  matchedField <> EmptyString ->
  ModifierDiff.prepare m doc root matchedField ex = Returns (st, m', ex') ->
  exists pos : nat,
    FieldRef.parse (fieldName modExpr) !! pos = Some "$" /\
    ModifierDiff._updatePath m' !! pos = Some matchedField /\
    FieldRef.numParts (ModifierDiff._updatePath m') =
      FieldRef.numParts (FieldRef.parse (fieldName modExpr)) /\
    forall j : nat, j <> pos ->
      ModifierDiff._updatePath m' !! j = FieldRef.parse (fieldName modExpr) !! j.
Proof.
  intros Hi Hfirst Hmf Hp.
  destruct (init_positional_inv _ _ _ _ _ Hi) as (Hpath & Hval & Hat & _).
  destruct (prepare_modifier _ _ _ _ _ _ _ _ Hp) as (_ & _ & Hup).
  assert (Hpos : ModifierDiff._pathReplacementPosition m <> 0%nat).
  { intros E. rewrite E in Hat. exact (Hfirst _ Hat eq_refl). }
  assert (Hmm : missingMatch m matchedField = false).
  { unfold missingMatch. apply andb_false_iff. right.
    apply String.eqb_neq. exact Hmf. }
  rewrite Hmm in Hup. unfold boundPath in Hup.
  apply Nat.eqb_neq in Hpos. rewrite Hpos in Hup. simpl in Hup.
  rewrite Hpath in Hup. unfold FieldRef.setPart in Hup.
  exists (ModifierDiff._pathReplacementPosition m). rewrite Hup.
  split; [exact Hat|]. split; [|split].
  - apply list_lookup_insert_eq. apply lookup_lt_Some in Hat. exact Hat.
  - unfold FieldRef.numParts. apply length_insert.
  - intros j Hj. apply list_lookup_insert_ne. congruence.
Qed.

Lemma placeholder_is_bound_to_matched_field_witness :
  exists pos : nat,
    FieldRef.parse "a.$.b" !! pos = Some "$" /\
    ["a"; "2"; "b"] !! pos = Some "2" /\
    FieldRef.numParts ["a"; "2"; "b"] = FieldRef.numParts (FieldRef.parse "a.$.b") /\
    forall j : nat, j <> pos -> ["a"; "2"; "b"] !! j = FieldRef.parse "a.$.b" !! j.
Proof.
  apply (placeholder_is_bound_to_matched_field ModifierDiff.new ("a.$.b", VInt 9)
           Examples.noOptions false (Examples.modifierFor "a.$.b" (VInt 9))
           Examples.docArrObj (At []) "2" Examples.noExecInfo OK
           (ModifierDiff.mk ["a"; "2"; "b"] 1 ("a.$.b", VInt 9)
              (Some (ModifierDiff.mkPreparedState 2 (At [0; 2; 0]%nat) false)))
           (ModifierDiff.mkExecInfo (Some ["a"; "2"; "b"]) false)).
  - reflexivity.
  - intros part [= <-]. discriminate.
  - discriminate.
  - vm_compute. reflexivity.
Defined.

(** After a successful [prepare], the located element is the end sentinel
    with the no-op flag set, or it is a node of the document with a place in
    a parent; the flag is clear only if the whole path was found and the
    comparison gave zero. *)
Lemma prepare_OK_inv (m : ModifierDiff.t) (doc : Document) (root : Element)
    (matchedField : string) (ex : ModifierDiff.ExecInfo)
    (m' : ModifierDiff.t) (ex' : ModifierDiff.ExecInfo) :
  ModifierDiff.prepare m doc root matchedField ex = Returns (OK, m', ex') ->
  exists ps : ModifierDiff.PreparedState,
    ModifierDiff._preparedState m' = Some ps /\
    ((ModifierDiff.elemFound ps = End /\ ModifierDiff.noOp ps = true) \/
     (exists (pp : list nat) (k : nat) (x : BSONElement),
        ModifierDiff.elemFound ps = At (pp ++ [k]) /\
        resolve doc (At (pp ++ [k])) = Some x /\
        ModifierDiff.noOp ps =
          (if ModifierDiff.destExists m' (ModifierDiff.idxFound ps)
                (ModifierDiff.elemFound ps)
           then negb (Z.eqb (woCompare x (ModifierDiff._val m) false None) 0)
           else true))).
Proof.
  destruct (missingMatch m matchedField) eqn:Hmm.
  { rewrite (prepare_missingMatch _ _ _ _ _ Hmm). intros [=]. }
  destruct (pathsupport.findLongestPrefix (boundPath m matchedField) doc root 0 End)
    as [[s idx] e] eqn:Hf.
  rewrite (prepare_bound _ _ _ _ _ _ _ _ Hmm Hf). cbv zeta.
  destruct (bool_decide (s = NonExistentPath)) eqn:Hne; simpl.
  { unfold ModifierDiff.destExists. simpl. intros [= <- <-]. simpl. eauto. }
  destruct (isOK s) eqn:Hok; [|intros [= -> _ _]; discriminate Hok].
  destruct s; try discriminate Hok.
  destruct (findLongestPrefix_OK _ _ _ _ _ _ _ Hf) as (pp & k & x & -> & Hx).
  destruct (ModifierDiff.destExists _ idx (At (pp ++ [k]))) eqn:Hd; simpl.
  - rewrite (compare_attached _ _ _ _ Hx). simpl. intros [= <- <-].
    eexists. split; [reflexivity|]. right. exists pp, k, x. simpl.
    unfold ModifierDiff.destExists in *. simpl in *. rewrite Hd. auto.
  - intros [= <- <-].
    eexists. split; [reflexivity|]. right. exists pp, k, x. simpl.
    unfold ModifierDiff.destExists in *. simpl in *. rewrite Hd. auto.
Qed.

(** X8. When [prepare] has decided on an effective mutation, the element it
    located is the one at the last part of the path, it compares equal to the
    target, and [apply] cannot fail: in any build it returns OK, with null
    put in place under an array parent and the element detached otherwise. *)
Theorem apply_succeeds_after_effective_prepare (kDebugBuild : bool)
    (m : ModifierDiff.t) (doc : Document) (root : Element) (matchedField : string)
    (ex : ModifierDiff.ExecInfo) (m' : ModifierDiff.t) (ex' : ModifierDiff.ExecInfo)
    (ps : ModifierDiff.PreparedState) :
  ModifierDiff.prepare m doc root matchedField ex = Returns (OK, m', ex') ->
  ModifierDiff._preparedState m' = Some ps ->
  ModifierDiff.noOp ps = false ->
  ModifierDiff.destExists m' (ModifierDiff.idxFound ps) (ModifierDiff.elemFound ps) = true /\
  exists (pp : list nat) (k : nat) (x : BSONElement),
    ModifierDiff.elemFound ps = At (pp ++ [k]) /\
    resolve doc (At (pp ++ [k])) = Some x /\
    woCompare x (ModifierDiff._val m) false None = 0 /\
    ModifierDiff.apply kDebugBuild m' doc =
    Returns (OK, if isType doc (At pp) Array then nulled doc pp k else detached doc pp k).
Proof.
  intros Hp Hps Hn.
  destruct (prepare_OK_inv _ _ _ _ _ _ _ Hp) as (ps' & Hps' & H).
  rewrite Hps in Hps'. injection Hps' as <-.
  destruct H as [[_ H]|(pp & k & x & He & Hx & Hno)]; [congruence|].
  rewrite Hn in Hno.
  destruct (ModifierDiff.destExists m' _ _); [|discriminate Hno].
  split; [reflexivity|]. exists pp, k, x.
  split; [exact He|]. split; [exact Hx|]. split.
  - symmetry in Hno. apply negb_false_iff, Z.eqb_eq in Hno. exact Hno.
  - rewrite (apply_attached _ _ _ _ Hx _ _ _ Hps He Hn).
    destruct (isType doc (At pp) Array); reflexivity.
Qed.

Lemma apply_succeeds_after_effective_prepare_witness :
  exists (pp : list nat) (k : nat) (x : BSONElement),
    At [0; 2; 0]%nat = At (pp ++ [k]) /\
    resolve Examples.docArrObj (At (pp ++ [k])) = Some x /\
    woCompare x ("a.$.b", VInt 9) false None = 0 /\
    ModifierDiff.apply false
      (ModifierDiff.mk ["a"; "2"; "b"] 1 ("a.$.b", VInt 9)
         (Some (ModifierDiff.mkPreparedState 2 (At [0; 2; 0]%nat) false)))
      Examples.docArrObj =
    Returns (OK, if isType Examples.docArrObj (At pp) Array
                 then nulled Examples.docArrObj pp k
                 else detached Examples.docArrObj pp k).
Proof.
  apply (apply_succeeds_after_effective_prepare false
           (Examples.modifierFor "a.$.b" (VInt 9)) Examples.docArrObj (At []) "2"
           Examples.noExecInfo
           (ModifierDiff.mk ["a"; "2"; "b"] 1 ("a.$.b", VInt 9)
              (Some (ModifierDiff.mkPreparedState 2 (At [0; 2; 0]%nat) false)))
           (ModifierDiff.mkExecInfo (Some ["a"; "2"; "b"]) false)
           (ModifierDiff.mkPreparedState 2 (At [0; 2; 0]%nat) false)).
  - vm_compute. reflexivity.
  - reflexivity.
  - reflexivity.
Defined.

(** X9. The guard of [apply] is the [dassert] alone. After a [prepare]
    that decided no-op but left a located element (a prefix of the path, or
    an element whose value differs from the target), [apply] aborts in a
    debug build; in a build without debug assertions it goes on and mutates
    that element, returning OK. *)
Theorem apply_on_noop_state_is_guarded_by_dassert_only (m : ModifierDiff.t)
    (doc : Document) (root : Element) (matchedField : string)
    (ex : ModifierDiff.ExecInfo) (m' : ModifierDiff.t) (ex' : ModifierDiff.ExecInfo)
    (ps : ModifierDiff.PreparedState) :
  ModifierDiff.prepare m doc root matchedField ex = Returns (OK, m', ex') ->
  ModifierDiff._preparedState m' = Some ps ->
  ModifierDiff.noOp ps = true ->
  ok (ModifierDiff.elemFound ps) = true ->
  ModifierDiff.apply true m' doc = Aborts /\
  exists (pp : list nat) (k : nat),
    ModifierDiff.elemFound ps = At (pp ++ [k]) /\
    ModifierDiff.apply false m' doc =
    Returns (OK, if isType doc (At pp) Array then nulled doc pp k else detached doc pp k).
Proof.
  intros Hp Hps Hn Hok.
  destruct (prepare_OK_inv _ _ _ _ _ _ _ Hp) as (ps' & Hps' & H).
  rewrite Hps in Hps'. injection Hps' as <-.
  destruct H as [[He _]|(pp & k & x & He & Hx & _)];
    [rewrite He in Hok; discriminate Hok|].
  split.
  - unfold ModifierDiff.apply. rewrite Hps, Hn. reflexivity.
  - exists pp, k. split; [exact He|].
    unfold ModifierDiff.apply. rewrite Hps, He. simpl.
    rewrite parent_snoc. simpl. unfold isType.
    destruct (bool_decide (getType doc (At pp) = Array)).
    + apply (setValueNull_attached _ _ _ _ Hx).
    + apply (remove_attached _ _ _ _ Hx).
Qed.

Lemma apply_on_noop_state_is_guarded_by_dassert_only_witness :
  ModifierDiff.apply true
    (ModifierDiff.mk ["a"; "c"] 0 ("a.c", VInt 5)
       (Some (ModifierDiff.mkPreparedState 0 (At [0%nat]) true)))
    Examples.docAB = Aborts /\
  exists (pp : list nat) (k : nat),
    At [0%nat] = At (pp ++ [k]) /\
    ModifierDiff.apply false
      (ModifierDiff.mk ["a"; "c"] 0 ("a.c", VInt 5)
         (Some (ModifierDiff.mkPreparedState 0 (At [0%nat]) true)))
      Examples.docAB =
    Returns (OK, if isType Examples.docAB (At pp) Array
                 then nulled Examples.docAB pp k
                 else detached Examples.docAB pp k).
Proof.
  apply (apply_on_noop_state_is_guarded_by_dassert_only
           (Examples.modifierFor "a.c" (VInt 5)) Examples.docAB (At []) EmptyString
           Examples.noExecInfo
           (ModifierDiff.mk ["a"; "c"] 0 ("a.c", VInt 5)
              (Some (ModifierDiff.mkPreparedState 0 (At [0%nat]) true)))
           (ModifierDiff.mkExecInfo (Some ["a"; "c"]) true)
           (ModifierDiff.mkPreparedState 0 (At [0%nat]) true)).
  - vm_compute. reflexivity.
  - reflexivity.
  - reflexivity.
  - reflexivity.
Defined.

End Cycle.

(** ** What an effective mutation changes in the document *)

Section Frame.

Import mutablebson.

#[local] Arguments parent : simpl never.
#[local] Arguments remove : simpl never.
#[local] Arguments setValueNull : simpl never.
#[local] Arguments isType : simpl never.

Lemma withChildren_childrenOf (v : Value) : withChildren v (childrenOf v) = v.
Proof. destruct v; reflexivity. Qed.

Lemma lookupFrom_append (e : BSONElement) (a b : list nat) :
  lookupFrom e (a ++ b) =
  match lookupFrom e a with
  | Some x => lookupFrom x b
  | None => None
  end.
Proof.
  revert e. induction a as [|i a IH]; intros e; simpl; [reflexivity|].
  destruct (childrenOf (value e) !! i); [apply IH | reflexivity].
Qed.

(** Rewriting the child list at [pp] is not seen at a position that leaves
    the way to [pp] at some index. *)
Lemma lookupFrom_alterAt_off_path (f : list BSONElement -> list BSONElement)
    (c : list nat) :
  forall (n : string) (v : Value) (i j : nat) (q' p' : list nat),
    i <> j ->
    lookupFrom (n, alterAt f (c ++ j :: p') v) (c ++ i :: q') =
    lookupFrom (n, v) (c ++ i :: q').
Proof.
  induction c as [|a c IH]; intros n v i j q' p' Hij; simpl.
  - destruct v; simpl; try reflexivity;
      rewrite list_lookup_alter_ne by congruence; reflexivity.
  - destruct v; simpl; try reflexivity;
      rewrite list_lookup_alter_eq;
      (destruct (_ !! a) as [[cn cv]|]; simpl; [apply IH; exact Hij | reflexivity]).
Qed.

(** Rewriting a child list into itself changes nothing. *)
Lemma alterAt_same (f : list BSONElement -> list BSONElement) (pp : list nat) :
  forall (n : string) (v : Value) (pa : BSONElement),
    lookupFrom (n, v) pp = Some pa ->
    f (childrenOf (value pa)) = childrenOf (value pa) ->
    alterAt f pp v = v.
Proof.
  induction pp as [|i pp IH]; intros n v pa; simpl.
  - intros [= <-] Hf. simpl in Hf. rewrite Hf. apply withChildren_childrenOf.
  - destruct (childrenOf v !! i) as [[cn cv]|] eqn:Hi; [|discriminate].
    intros Hpa Hf.
    assert (E : alter (fun c => (fst c, alterAt f pp (snd c))) i (childrenOf v) =
                childrenOf v).
    { apply list_eq. intros j. destruct (decide (i = j)) as [<-|Hne].
      - rewrite list_lookup_alter_eq, Hi. simpl.
        rewrite (IH cn cv pa Hpa Hf). reflexivity.
      - apply list_lookup_alter_ne. exact Hne. }
    rewrite E. apply withChildren_childrenOf.
Qed.

Variable doc : Document.
Variables (pp : list nat) (k : nat) (x : BSONElement).
Hypothesis attached : resolve doc (At (pp ++ [k])) = Some x.

Lemma resolve_nulled_child :
  resolve (nulled doc pp k) (At (pp ++ [k])) = Some (fieldName x, VNull).
Proof.
  destruct (resolve_snoc _ _ _ _ attached) as (pa & Hpa & Hk).
  apply (resolve_child _ _ _ _ _ (resolve_nulled _ _ _ _ Hpa)).
  cbn [value snd]. rewrite (childrenOf_withChildren (value pa) _ k x Hk).
  rewrite list_lookup_alter_eq, Hk. reflexivity.
Qed.

(** X10. An effective mutation by [DiffNode::updateExistingElement] leaves
    the document as it was exactly when the parent is an array and the
    element is already null: the call then still returns [kNormalUpdate]. In
    every other case the document has changed. *)
Theorem normal_update_changes_document_unless_null_in_array (node : DiffNode.t)
    (elementPath : FieldRef.t) (doc' : Document) :
  DiffNode.updateExistingElement node doc (At (pp ++ [k])) elementPath =
  Returns (DiffNode.kNormalUpdate, doc') ->
  (doc' = doc <-> isType doc (At pp) Array = true /\ value x = VNull).
Proof.
  rewrite (updateExistingElement_attached _ _ _ _ attached).
  destruct (negb (Z.eqb (woCompare x (DiffNode._val node) false None) 0));
    [intros [=]|].
  destruct (resolve_snoc _ _ _ _ attached) as (pa & Hpa & Hk).
  destruct (isType doc (At pp) Array) eqn:Ht; intros [= <-]; split.
  - intros E. split; [reflexivity|].
    pose proof resolve_nulled_child as Hn. rewrite E, attached in Hn.
    injection Hn as Hn. rewrite Hn. reflexivity.
  - intros [_ Hv]. unfold nulled. destruct doc as [rv]. simpl in *. f_equal.
    apply (alterAt_same _ _ EmptyString rv pa Hpa).
    apply list_eq. intros j. destruct (decide (k = j)) as [<-|Hne].
    + rewrite list_lookup_alter_eq, Hk. simpl. destruct x as [xn xv].
      simpl in Hv. subst xv. reflexivity.
    + apply list_lookup_alter_ne. exact Hne.
  - intros E. exfalso.
    pose proof (resolve_detached _ _ k _ Hpa) as Hd. rewrite E, Hpa in Hd.
    injection Hd as Hd.
    apply (f_equal (fun e => childrenOf (value e))) in Hd. cbn [value snd] in Hd.
    rewrite (childrenOf_withChildren (value pa) _ k x Hk) in Hd.
    apply (f_equal length) in Hd. rewrite length_delete in Hd by eauto.
    apply lookup_lt_Some in Hk. lia.
  - intros [H _]. discriminate H.
Qed.

(** X11. An effective mutation by [DiffNode::updateExistingElement] touches
    nothing but the place of the located element. A position that leaves the
    way to the parent resolves as before; under the parent the earlier
    siblings, with all below them, are where they were; a later sibling, with
    all below it, is found in place under an array parent and one place up
    under an object parent. *)
Theorem normal_update_touches_only_the_located_place (node : DiffNode.t)
    (elementPath : FieldRef.t) (doc' : Document) :
  DiffNode.updateExistingElement node doc (At (pp ++ [k])) elementPath =
  Returns (DiffNode.kNormalUpdate, doc') ->
  (forall (c : list nat) (i j : nat) (q' p' : list nat),
      i <> j -> pp = c ++ j :: p' ->
      resolve doc' (At (c ++ i :: q')) = resolve doc (At (c ++ i :: q'))) /\
  (forall (j : nat) (r : list nat),
      (j < k)%nat ->
      resolve doc' (At (pp ++ j :: r)) = resolve doc (At (pp ++ j :: r))) /\
  (forall (j : nat) (r : list nat),
      (k < j)%nat ->
      resolve doc'
        (At (pp ++ (if isType doc (At pp) Array then j else (j - 1)%nat) :: r)) =
      resolve doc (At (pp ++ j :: r))).
Proof.
  rewrite (updateExistingElement_attached _ _ _ _ attached).
  destruct (negb (Z.eqb (woCompare x (DiffNode._val node) false None) 0));
    [intros [=]|].
  destruct (resolve_snoc _ _ _ _ attached) as (pa & Hpa & Hk).
  assert (Hunder : forall d' kids' j j' r,
            resolve d' (At pp) = Some (fieldName pa, withChildren (value pa) kids') ->
            kids' !! j' = childrenOf (value pa) !! j ->
            resolve d' (At (pp ++ j' :: r)) = resolve doc (At (pp ++ j :: r))).
  { intros d' kids' j j' r Hd' Hj. unfold resolve in *.
    rewrite !lookupFrom_append, Hd', Hpa. simpl.
    destruct (childrenOf (value pa) !! j) as [cj|] eqn:Ecj.
    - rewrite (childrenOf_withChildren (value pa) _ j cj Ecj), Hj. reflexivity.
    - rewrite (childrenOf_withChildren (value pa) _ k x Hk), Hj. reflexivity. }
  destruct (isType doc (At pp) Array) eqn:Ht; intros [= <-]; split; [|split| |split].
  - intros c i j q' p' Hij ->. unfold nulled, resolve. simpl.
    apply lookupFrom_alterAt_off_path. exact Hij.
  - intros j r Hlt. apply (Hunder _ _ _ _ _ (resolve_nulled _ _ k _ Hpa)).
    apply list_lookup_alter_ne. lia.
  - intros j r Hlt. apply (Hunder _ _ _ _ _ (resolve_nulled _ _ k _ Hpa)).
    apply list_lookup_alter_ne. lia.
  - intros c i j q' p' Hij ->. unfold detached, resolve. simpl.
    apply lookupFrom_alterAt_off_path. exact Hij.
  - intros j r Hlt. apply (Hunder _ _ _ _ _ (resolve_detached _ _ k _ Hpa)).
    apply list_lookup_delete_lt. exact Hlt.
  - intros j r Hlt. apply (Hunder _ _ _ _ _ (resolve_detached _ _ k _ Hpa)).
    rewrite list_lookup_delete_ge by lia. f_equal. lia.
Qed.

End Frame.

Section FrameWitnesses.

Import mutablebson.

Lemma normal_update_changes_document_unless_null_in_array_witness :
  mkDocument (VObject [("a", VArray [("0", VNull)])]) =
  mkDocument (VObject [("a", VArray [("0", VNull)])]) <->
  isType (mkDocument (VObject [("a", VArray [("0", VNull)])]))
    (At [0%nat]) Array = true /\
  value ("0", VNull) = VNull.
Proof.
  apply (normal_update_changes_document_unless_null_in_array
           (mkDocument (VObject [("a", VArray [("0", VNull)])])) [0%nat] 0%nat
           ("0", VNull) eq_refl (DiffNode.mk ("a.0", VNull)) ["a"; "0"]).
  vm_compute. reflexivity.
Defined.

Lemma normal_update_touches_only_the_located_place_witness :
  resolve
    (detached Examples.docArrObj [0; 1]%nat 0) (At [0; 2; 0]%nat) =
  resolve Examples.docArrObj (At [0; 2; 0]%nat).
Proof.
  destruct (normal_update_touches_only_the_located_place Examples.docArrObj
              [0; 1]%nat 0%nat ("b", VInt 2) eq_refl (DiffNode.mk ("a.1.b", VInt 2))
              ["a"; "1"; "b"] (detached Examples.docArrObj [0; 1]%nat 0))
    as (H & _ & _); [vm_compute; reflexivity|].
  apply (H [0%nat] 2%nat 1%nat [0%nat] []); [discriminate | reflexivity].
Defined.

End FrameWitnesses.

(** ** The comparison *)

Section CompareFacts.

Import mutablebson.

#[local] Arguments parent : simpl never.
#[local] Arguments remove : simpl never.
#[local] Arguments setValueNull : simpl never.
#[local] Arguments isType : simpl never.

(** Induction on values that goes through the child lists. *)
Lemma Value_nested_ind (P : Value -> Prop) :
  P VEOO -> P VNull -> (forall b, P (VBool b)) -> (forall n, P (VInt n)) ->
  (forall s, P (VString s)) ->
  (forall fields, Forall (fun c => P (snd c)) fields -> P (VObject fields)) ->
  (forall items, Forall (fun c => P (snd c)) items -> P (VArray items)) ->
  forall v, P v.
Proof.
  intros HE HN HB HI HS HO HA. fix IH 1. intros [| |b|n|s|fields|items].
  - exact HE.
  - exact HN.
  - apply HB.
  - apply HI.
  - apply HS.
  - apply HO. induction fields as [|[n v] fields IHf]; constructor;
      [apply IH | exact IHf].
  - apply HA. induction items as [|[n v] items IHi]; constructor;
      [apply IH | exact IHi].
Qed.

Lemma compareStringData_refl (a : string) : compareStringData a a = 0.
Proof.
  unfold compareStringData.
  assert (E : String.compare a a = Eq).
  { induction a as [|c a IH]; simpl; [reflexivity|].
    unfold Ascii.compare. rewrite N.compare_refl. exact IH. }
  rewrite E. reflexivity.
Qed.

Lemma compareElementValues_refl (v : Value) : compareElementValues None v v = 0.
Proof.
  induction v as [| |b|n|s|fields IH|items IH] using Value_nested_ind;
    simpl; try reflexivity.
  - lia.
  - rewrite Z.compare_refl. reflexivity.
  - apply compareStringData_refl.
  - induction IH as [|[n v] fields Hv _ IHf]; [reflexivity|].
    simpl in *. rewrite Z.sub_diag. simpl.
    rewrite compareStringData_refl. simpl. rewrite Hv. simpl. exact IHf.
  - induction IH as [|[n v] items Hv _ IHi]; [reflexivity|].
    simpl in *. rewrite Z.sub_diag. simpl.
    rewrite compareStringData_refl. simpl. rewrite Hv. simpl. exact IHi.
Qed.

Lemma woCompare_same_value (n tn : string) (v : Value) :
  woCompare (n, v) (tn, v) false None = 0.
Proof.
  unfold woCompare. simpl. rewrite Z.sub_diag. simpl.
  apply compareElementValues_refl.
Qed.

Lemma woCompare_zero_canonical (l r : BSONElement) (b : bool)
    (c : option CollatorInterface) :
  woCompare l r b c = 0 ->
  canonicalizeBSONType (typeOf (value l)) = canonicalizeBSONType (typeOf (value r)).
Proof.
  unfold woCompare.
  destruct (Z.eqb_spec
              (canonicalizeBSONType (typeOf (value l)) -
               canonicalizeBSONType (typeOf (value r))) 0) as [E|E]; simpl.
  - intros _. lia.
  - intros H. contradiction.
Qed.

(** X12. An element whose value is the value of the target is always an
    effective mutation, whatever the two names: [updateExistingElement]
    returns [kNormalUpdate] on it, and [prepare], when it has found the whole
    path, clears the no-op flag. *)
Theorem element_equal_to_target_is_mutated :
  (forall (node : DiffNode.t) (doc : Document) (pp : list nat) (k : nat) (n : string)
          (elementPath : FieldRef.t),
      resolve doc (At (pp ++ [k])) = Some (n, value (DiffNode._val node)) ->
      exists doc' : Document,
        DiffNode.updateExistingElement node doc (At (pp ++ [k])) elementPath =
        Returns (DiffNode.kNormalUpdate, doc')) /\
  (forall (m : ModifierDiff.t) (doc : Document) (root : Element) (matchedField : string)
          (ex : ModifierDiff.ExecInfo) (m' : ModifierDiff.t)
          (ex' : ModifierDiff.ExecInfo) (ps : ModifierDiff.PreparedState) (n : string),
      ModifierDiff.prepare m doc root matchedField ex = Returns (OK, m', ex') ->
      ModifierDiff._preparedState m' = Some ps ->
      ModifierDiff.destExists m' (ModifierDiff.idxFound ps)
        (ModifierDiff.elemFound ps) = true ->
      resolve doc (ModifierDiff.elemFound ps) = Some (n, value (ModifierDiff._val m)) ->
      ModifierDiff.noOp ps = false /\ ModifierDiff.execNoOp ex' = false).
Proof.
  split.
  - intros node doc pp k n elementPath Hx.
    rewrite (updateExistingElement_attached _ _ _ _ Hx).
    destruct (DiffNode._val node) as [tn tv]. simpl.
    rewrite woCompare_same_value. simpl.
    destruct (isType doc (At pp) Array); eauto.
  - intros m doc root matchedField ex m' ex' ps n Hp Hps Hd Hr.
    destruct (prepare_located _ _ _ _ _ _ _ _ Hp Hps Hd)
      as (pp & k & x & He & Hx & Hn & Hex & _).
    rewrite He, Hx in Hr. injection Hr as ->.
    rewrite Hex, Hn. destruct (ModifierDiff._val m) as [tn tv]. simpl.
    rewrite woCompare_same_value. auto.
Qed.

Lemma element_equal_to_target_is_mutated_witness :
  exists doc' : Document,
    DiffNode.updateExistingElement (DiffNode.mk ("anything", VInt 5)) Examples.docAB
      (At ([0%nat] ++ [0%nat])) ["a"; "b"] =
    Returns (DiffNode.kNormalUpdate, doc').
Proof.
  apply (proj1 element_equal_to_target_is_mutated (DiffNode.mk ("anything", VInt 5))
           Examples.docAB [0%nat] 0%nat "b" ["a"; "b"]).
  reflexivity.
Defined.

(** X13. The decision is type-aware: when [updateExistingElement] returns
    [kNormalUpdate], the element and the target are in the same canonical
    type class; a value is never taken out for a target of another class. *)
Theorem normal_update_only_within_a_type_class (node : DiffNode.t) (doc doc' : Document)
    (element : Element) (elementPath : FieldRef.t) (x : BSONElement) :
  resolve doc element = Some x ->
  DiffNode.updateExistingElement node doc element elementPath =
  Returns (DiffNode.kNormalUpdate, doc') ->
  canonicalizeBSONType (typeOf (value x)) =
  canonicalizeBSONType (typeOf (value (DiffNode._val node))).
Proof.
  intros Hx. unfold DiffNode.updateExistingElement, compareWithBSONElement.
  rewrite Hx. simpl.
  destruct (Z.eqb_spec (woCompare x (DiffNode._val node) false None) 0) as [E|E];
    simpl; [|intros [=]].
  intros _. exact (woCompare_zero_canonical _ _ _ _ E).
Qed.

Lemma normal_update_only_within_a_type_class_witness :
  canonicalizeBSONType (typeOf (value ("1", VInt 2))) =
  canonicalizeBSONType (typeOf (value (DiffNode._val (DiffNode.mk ("a.1", VInt 2))))).
Proof.
  apply (normal_update_only_within_a_type_class (DiffNode.mk ("a.1", VInt 2))
           Examples.docArr (nulled Examples.docArr [0%nat] 1) (At [0; 1]%nat)
           ["a"; "1"] ("1", VInt 2)).
  - reflexivity.
  - vm_compute. reflexivity.
Defined.

End CompareFacts.

(** ** The locator on a document that kept its shape *)

Section Stability.

Import mutablebson pathsupport.

#[local] Arguments findFirstChildNamed : simpl never.
#[local] Arguments findNthChild : simpl never.
#[local] Arguments getType : simpl never.

Lemma map_fst_alter (phi : BSONElement -> BSONElement) (i : nat) (l : list BSONElement) :
  (forall c, fst (phi c) = fst c) -> map fst (alter phi i l) = map fst l.
Proof.
  intros H. revert i. induction l as [|c l IH]; intros [|i]; simpl; try reflexivity.
  - rewrite H. reflexivity.
  - f_equal. apply IH.
Qed.

Lemma indexOfName_names (name : string) (l' : list BSONElement) :
  forall l : list BSONElement,
    map fst l' = map fst l -> indexOfName name l' = indexOfName name l.
Proof.
  induction l' as [|[k' v'] l' IH]; intros [|[k v] l]; simpl; try discriminate;
    [reflexivity|].
  intros [= -> Hl]. rewrite (IH l Hl). reflexivity.
Qed.

Lemma lookup_names (l' l : list BSONElement) (n : nat) :
  map fst l' = map fst l -> is_Some (l' !! n) -> is_Some (l !! n).
Proof.
  intros H Hs. apply lookup_lt_is_Some. apply lookup_lt_is_Some in Hs.
  apply (f_equal length) in H. rewrite !length_map in H. lia.
Qed.

(** Below a rewritten child list the tree follows the rewriting. *)
Lemma lookupFrom_alterAt_spine (f : list BSONElement -> list BSONElement)
    (c : list nat) :
  forall (rest : list nat) (n : string) (v : Value) (e : BSONElement),
    lookupFrom (n, v) c = Some e ->
    lookupFrom (n, alterAt f (c ++ rest) v) c = Some (fst e, alterAt f rest (snd e)).
Proof.
  induction c as [|a c IH]; intros rest n v e; simpl.
  - intros [= <-]. reflexivity.
  - destruct (childrenOf v !! a) as [[cn cv]|] eqn:Ha; [|discriminate].
    intros He. rewrite (childrenOf_withChildren v _ a _ Ha).
    rewrite list_lookup_alter_eq, Ha. simpl. apply IH, He.
Qed.

(** Putting null in the place of one child keeps the shape of every node on
    the way to it. *)
Lemma nulled_sameShape (k : nat) (rest : list nat) (v : Value) :
  sameShape (alterAt (alter (fun c => (fst c, VNull)) k) rest v) v.
Proof.
  destruct rest as [|i rest]; simpl; split;
    try apply typeOf_withChildren;
    destruct v; simpl; try reflexivity;
    apply map_fst_alter; reflexivity.
Qed.

Variables (doc doc' : Document).

Lemma agreeAt_getType (c : list nat) :
  agreeAt doc doc' c -> is_Some (resolve doc (At c)) ->
  getType doc' (At c) = getType doc (At c).
Proof.
  intros H [e He]. destruct (H e He) as (e' & He' & Ht & _).
  unfold getType. rewrite He, He'. exact Ht.
Qed.

Lemma agreeAt_hasChildren (c : list nat) :
  agreeAt doc doc' c -> is_Some (resolve doc (At c)) ->
  hasChildren doc' (At c) = hasChildren doc (At c).
Proof.
  intros H [e He]. destruct (H e He) as (e' & He' & _ & Hn).
  unfold hasChildren. rewrite He, He'. unfold value.
  destruct (childrenOf (snd e')), (childrenOf (snd e)); try discriminate Hn;
    reflexivity.
Qed.

Lemma agreeAt_findFirstChildNamed (c : list nat) (name : string) :
  agreeAt doc doc' c -> is_Some (resolve doc (At c)) ->
  findFirstChildNamed doc' (At c) name = findFirstChildNamed doc (At c) name.
Proof.
  intros H [e He]. destruct (H e He) as (e' & He' & _ & Hn).
  unfold findFirstChildNamed. rewrite He, He'. unfold value.
  rewrite (indexOfName_names name _ _ Hn). reflexivity.
Qed.

Lemma agreeAt_findNthChild (c : list nat) (n : nat) :
  agreeAt doc doc' c -> is_Some (resolve doc (At c)) ->
  findNthChild doc' (At c) n = findNthChild doc (At c) n.
Proof.
  intros H [e He]. destruct (H e He) as (e' & He' & _ & Hn).
  unfold findNthChild, resolve in *. rewrite !lookupFrom_app, He, He'. unfold value.
  destruct (childrenOf (snd e') !! n) eqn:E1, (childrenOf (snd e) !! n) eqn:E2;
    try reflexivity.
  - assert (Hs : is_Some (childrenOf (snd e) !! n))
      by (apply (lookup_names _ _ _ Hn); eauto).
    rewrite E2 in Hs. destruct Hs as [? [=]].
  - assert (Hs : is_Some (childrenOf (snd e') !! n))
      by (apply (lookup_names _ _ _ (eq_sym Hn)); eauto).
    rewrite E1 in Hs. destruct Hs as [? [=]].
Qed.

(** The element that a viable walk ends on lies below the one it started
    from, as many levels as parts were taken. *)
Lemma walk_extends (d : Document) (parts : list string) :
  forall (i : nat) (c : list nat) (prev : Element) (i' : nat) (t : list nat)
         (prev' : Element),
    walk d parts i (At c) prev = (i', At t, prev', true) ->
    exists q : list nat, t = c ++ q /\ (i + length q = i')%nat.
Proof.
  induction parts as [|part rest IH]; intros i c prev i' t prev'; simpl.
  - intros [= <- <- _]. exists []. rewrite app_nil_r. split; [reflexivity | simpl; lia].
  - assert (Hnext : forall next : Element,
              (next = End \/ exists a, next = At (c ++ [a])) ->
              (if (negb (ok next) || negb true)%bool then (i, next, At c, true)
               else walk d rest (S i) next (At c)) = (i', At t, prev', true) ->
              exists q : list nat, t = c ++ q /\ (i + length q = i')%nat).
    { intros next [-> | [a ->]]; simpl; [intros [=]|].
      intros Hw. destruct (IH _ _ _ _ _ _ Hw) as (q & -> & Hl).
      exists (a :: q). rewrite <- app_assoc. split; [reflexivity | simpl; lia]. }
    destruct (getType d (At c)).
    1-3, 6-7: (simpl; try rewrite orb_true_r; intros [=]).
    + apply (Hnext (findFirstChildNamed d (At c) part)). unfold findFirstChildNamed.
      destruct (resolve d (At c)) as [x|]; [|auto].
      destruct (indexOfName part (childrenOf (value x))); eauto.
    + destruct (isNumeric part) as [n|].
      * apply (Hnext (findNthChild d (At c) n)). unfold findNthChild.
        destruct (resolve d (At (c ++ [n]))); eauto.
      * simpl. try rewrite orb_true_r. intros [=].
Qed.

(** A walk that took every part and ended on [pp ++ [k]] goes the same way
    in a document that agrees with this one at every position on the way to
    [pp]. *)
Lemma walk_stable (pp : list nat) (k : nat) (parts : list string) :
  (forall c rest, pp = c ++ rest -> agreeAt doc doc' c) ->
  forall (i : nat) (c : list nat) (prev prev' : Element),
    is_Some (resolve doc (At c)) ->
    walk doc parts i (At c) prev = ((i + length parts)%nat, At (pp ++ [k]), prev', true) ->
    walk doc' parts i (At c) prev = ((i + length parts)%nat, At (pp ++ [k]), prev', true).
Proof.
  intros Hspine.
  induction parts as [|part rest IH]; intros i c prev prev' Hc; simpl; [auto|].
  assert (Hnext : forall next : Element,
            (ok next = true -> below doc c 1 next) ->
            (if (negb (ok next) || negb true)%bool then (i, next, At c, true)
             else walk doc rest (S i) next (At c)) =
            ((i + S (length rest))%nat, At (pp ++ [k]), prev', true) ->
            agreeAt doc doc' c /\
            walk doc' rest (S i) next (At c) =
            ((i + S (length rest))%nat, At (pp ++ [k]), prev', true)).
  { intros next Hb. destruct (ok next) eqn:Hok; simpl.
    - intros Hw. destruct (Hb eq_refl) as (q1 & -> & Hl1 & Hres).
      destruct q1 as [|a [|? ?]]; simpl in Hl1; try lia.
      destruct (walk_extends _ _ _ _ _ _ _ _ Hw) as (q & Ht & _).
      assert (Hag : agreeAt doc doc' c).
      { rewrite <- app_assoc in Ht. simpl in Ht.
        destruct (@exists_last _ (a :: q)) as (l & b & E); [discriminate|].
        rewrite E, app_assoc in Ht. apply app_inj_tail in Ht as [Ht _].
        exact (Hspine _ _ Ht). }
      split; [exact Hag|].
      replace (i + S (length rest))%nat with (S i + length rest)%nat in * by lia.
      apply IH; [exact Hres | exact Hw].
    - intros [= E _ _]. lia. }
  assert (Hb0 : below doc c 0 (At c))
    by (exists []; rewrite app_nil_r; auto).
  destruct (getType doc (At c)) eqn:Ht.
  1-3, 6-7: (simpl; try rewrite orb_true_r; intros [=]).
  - intros Hw.
    destruct (Hnext _ (findFirstChildNamed_below doc c 0 (At c) part Hb0) Hw)
      as [Hag Hw'].
    rewrite (agreeAt_getType _ Hag Hc), Ht.
    rewrite (agreeAt_findFirstChildNamed _ _ Hag Hc).
    destruct (ok (findFirstChildNamed doc (At c) part)) eqn:Hok; simpl;
      [exact Hw'|].
    simpl in Hw. exact Hw.
  - destruct (isNumeric part) as [n|] eqn:Hn.
    + intros Hw.
      destruct (Hnext _ (findNthChild_below doc c 0 (At c) n Hb0) Hw) as [Hag Hw'].
      rewrite (agreeAt_getType _ Hag Hc), Ht.
      rewrite (agreeAt_findNthChild _ _ Hag Hc).
      destruct (ok (findNthChild doc (At c) n)) eqn:Hok; simpl; [exact Hw'|].
      simpl in Hw. exact Hw.
    + simpl. try rewrite orb_true_r. intros [=].
Qed.

End Stability.

(** ** Running the modifier again on its own result *)

Section Rerun.

Import mutablebson pathsupport.

#[local] Arguments findLongestPrefix : simpl never.
#[local] Arguments compareWithBSONElement : simpl never.
#[local] Arguments size_t_sub : simpl never.
#[local] Arguments parent : simpl never.
#[local] Arguments remove : simpl never.
#[local] Arguments setValueNull : simpl never.
#[local] Arguments isType : simpl never.

(** How far a walk gets: it takes every part exactly when it ends viable on
    an element. *)
Lemma walk_index (d : Document) (parts : list string) :
  forall (i : nat) (curr prev : Element) (i' : nat) (curr' prev' : Element)
         (viable' : bool),
    walk d parts i curr prev = (i', curr', prev', viable') ->
    ok curr = true ->
    ((ok curr' && viable')%bool = true -> i' = (i + length parts)%nat) /\
    ((ok curr' && viable')%bool = false -> (i' < i + length parts)%nat).
Proof.
  induction parts as [|part rest IH]; intros i curr prev i' curr' prev' viable'; simpl.
  - intros [= <- <- <- <-] ->. simpl. split; [lia | discriminate].
  - destruct (match getType d curr with
              | Object => (findFirstChildNamed d curr part, true)
              | Array =>
                  match isNumeric part with
                  | Some n => (findNthChild d curr n, true)
                  | None => (curr, false)
                  end
              | _ => (curr, false)
              end) as [next viable] eqn:E.
    destruct (negb (ok next) || negb viable)%bool eqn:Hx.
    + intros [= <- <- <- <-] _. split; [|lia].
      intros H. apply andb_true_iff in H as [H1 H2]. rewrite H1, H2 in Hx.
      discriminate Hx.
    + intros Hw _. apply orb_false_iff in Hx as [Hx _].
      apply negb_false_iff in Hx.
      destruct (IH _ _ _ _ _ _ _ Hw Hx) as [H1 H2]. split; intros H.
      * rewrite (H1 H). lia.
      * specialize (H2 H). lia.
Qed.

(** A document that agrees with [doc] on the way to [pp] gives the locator
    the same answer, when that answer is the whole path, ending on
    [pp ++ [k]]. *)
Lemma findLongestPrefix_stable (doc doc' : Document) (pp : list nat) (k : nat)
    (prefix : FieldRef.t) (root : Element) (i0 : nat) (e0 : Element) :
  (forall c rest, pp = c ++ rest -> agreeAt doc doc' c) ->
  findLongestPrefix prefix doc root i0 e0 =
    (OK, (FieldRef.numParts prefix - 1)%nat, At (pp ++ [k])) ->
  findLongestPrefix prefix doc' root i0 e0 =
    (OK, (FieldRef.numParts prefix - 1)%nat, At (pp ++ [k])).
Proof.
  intros Hspine. unfold findLongestPrefix.
  destruct (hasChildren doc root) eqn:Hc; simpl; [|intros [=]].
  destruct (Nat.eqb (FieldRef.numParts prefix) 0) eqn:Hn; [intros [=]|].
  apply Nat.eqb_neq in Hn.
  destruct (walk doc prefix 0 root root) as [[[i curr] prev] viable] eqn:Hw.
  destruct (Nat.eqb i 0) eqn:Hi; [intros [=]|].
  apply Nat.eqb_neq in Hi.
  destruct viable; simpl; [|intros [=]].
  destruct root as [|r]; [discriminate Hc|].
  assert (Hr : is_Some (resolve doc (At r))).
  { unfold hasChildren in Hc. destruct (resolve doc (At r)); [eauto | discriminate]. }
  destruct (walk_index _ _ _ _ _ _ _ _ _ Hw eq_refl) as [Hall Hpart].
  destruct (ok curr) eqn:Hok.
  - intros [= Hidx ->]. simpl in Hall. specialize (Hall eq_refl). simpl in Hall.
    subst i. unfold FieldRef.numParts in *.
    destruct (walk_extends _ _ _ _ _ _ _ _ Hw) as (q & Ht & Hl).
    assert (Hag : agreeAt doc doc' r).
    { destruct (@exists_last _ q) as (l & b & E).
      - intros ->. simpl in Hl. lia.
      - rewrite E, app_assoc in Ht. apply app_inj_tail in Ht as [Ht _].
        exact (Hspine _ _ Ht). }
    rewrite (agreeAt_hasChildren _ _ _ Hag Hr), Hc. simpl.
    assert (Hz : Nat.eqb (length prefix) 0 = false) by (apply Nat.eqb_neq; exact Hn).
    rewrite (walk_stable doc doc' pp k prefix Hspine 0 r (At r) prev Hr Hw).
    simpl. rewrite Hz. reflexivity.
  - intros [= Hidx _]. simpl in Hpart. specialize (Hpart eq_refl).
    unfold FieldRef.numParts in *. simpl in Hpart. lia.
Qed.

Lemma nulled_agreeAt (doc : Document) (pp : list nat) (k : nat) :
  forall c rest, pp = c ++ rest -> agreeAt doc (nulled doc pp k) c.
Proof.
  intros c rest -> e He. unfold nulled, resolve in *. simpl.
  rewrite (lookupFrom_alterAt_spine _ _ _ _ _ _ He).
  eexists. split; [reflexivity|]. simpl. apply nulled_sameShape.
Qed.

Lemma woCompare_null (n tn : string) (tv : Value) :
  woCompare (n, VNull) (tn, tv) false None = 0 <-> typeOf tv = jstNULL.
Proof.
  unfold woCompare. destruct tv; simpl; split; intros H; try discriminate H;
    reflexivity.
Qed.

(** What the locator told a successful [prepare] that found the whole
    path. *)
Lemma prepare_locator_answer (m : ModifierDiff.t) (doc : Document) (root : Element)
    (matchedField : string) (ex : ModifierDiff.ExecInfo)
    (m' : ModifierDiff.t) (ex' : ModifierDiff.ExecInfo)
    (ps : ModifierDiff.PreparedState) :
  ModifierDiff.prepare m doc root matchedField ex = Returns (OK, m', ex') ->
  ModifierDiff._preparedState m' = Some ps ->
  ModifierDiff.destExists m' (ModifierDiff.idxFound ps) (ModifierDiff.elemFound ps) = true ->
  missingMatch m matchedField = false /\
  ModifierDiff._updatePath m' = boundPath m matchedField /\
  findLongestPrefix (boundPath m matchedField) doc root 0 End =
    (OK, ModifierDiff.idxFound ps, ModifierDiff.elemFound ps).
Proof.
  destruct (missingMatch m matchedField) eqn:Hmm.
  { rewrite (prepare_missingMatch _ _ _ _ _ Hmm). intros [=]. }
  destruct (findLongestPrefix (boundPath m matchedField) doc root 0 End)
    as [[s idx] e] eqn:Hf.
  rewrite (prepare_bound _ _ _ _ _ _ _ _ Hmm Hf). cbv zeta.
  destruct (bool_decide (s = NonExistentPath)) eqn:Hne; simpl.
  { intros [= <- <-] [= <-]. simpl. unfold ModifierDiff.destExists. simpl. intros [=]. }
  destruct (isOK s) eqn:Hok; [|intros [= -> _ _]; discriminate Hok].
  destruct s; try discriminate Hok.
  destruct (negb (ModifierDiff.destExists _ idx e)) eqn:Hd.
  - intros [= <- <-] [= <-]. simpl. unfold ModifierDiff.destExists in *. simpl in *.
    apply negb_true_iff in Hd. rewrite Hd. intros [=].
  - destruct (compareWithBSONElement doc e (ModifierDiff._val m) None false);
      simpl; intros [= <- <-] [= <-] _. simpl. auto.
Qed.

(** X14. Running the modifier again on what it made of an array element.
    After an effective mutation under an array parent, a second [prepare]
    with the same path on the resulting document locates the same element,
    and decides no-op unless the target is itself null. *)
Theorem rerun_on_array_element (kDebugBuild : bool) (m : ModifierDiff.t)
    (doc doc' : Document) (root : Element) (matchedField : string)
    (ex ex2 : ModifierDiff.ExecInfo) (m' : ModifierDiff.t)
    (ex' : ModifierDiff.ExecInfo) (ps : ModifierDiff.PreparedState) :
  ModifierDiff.prepare m doc root matchedField ex = Returns (OK, m', ex') ->
  ModifierDiff._preparedState m' = Some ps ->
  ModifierDiff.noOp ps = false ->
  Z.of_nat (FieldRef.numParts (ModifierDiff._updatePath m')) < 2 ^ 64 ->
  isType doc (parent (ModifierDiff.elemFound ps)) Array = true ->
  ModifierDiff.apply kDebugBuild m' doc = Returns (OK, doc') ->
  exists (m2 : ModifierDiff.t) (ex2' : ModifierDiff.ExecInfo)
         (ps2 : ModifierDiff.PreparedState),
    ModifierDiff.prepare m doc' root matchedField ex2 = Returns (OK, m2, ex2') /\
    ModifierDiff._preparedState m2 = Some ps2 /\
    ModifierDiff.elemFound ps2 = ModifierDiff.elemFound ps /\
    (ModifierDiff.noOp ps2 = true <-> typeOf (value (ModifierDiff._val m)) <> jstNULL).
Proof.
  intros Hp Hps Hn Hsize Harr Hap.
  destruct (prepare_OK_inv _ _ _ _ _ _ _ Hp) as (ps' & Hps' & H).
  rewrite Hps in Hps'. injection Hps' as <-.
  destruct H as [[_ H]|(pp & k & x & He & Hx & Hno)]; [congruence|].
  rewrite Hn in Hno.
  destruct (ModifierDiff.destExists m' _ _) eqn:Hd; [|discriminate Hno].
  destruct (prepare_locator_answer _ _ _ _ _ _ _ _ Hp Hps Hd) as (Hmm & Hpath & Hf).
  rewrite He, parent_snoc in Harr.
  rewrite (apply_attached _ _ _ _ Hx _ _ _ Hps He Hn), Harr in Hap.
  injection Hap as <-.
  assert (Hidx : ModifierDiff.idxFound ps =
                 (FieldRef.numParts (boundPath m matchedField) - 1)%nat).
  { unfold ModifierDiff.destExists in Hd. apply andb_true_iff in Hd as [_ Hd].
    apply Z.eqb_eq in Hd. rewrite Hpath in Hd, Hsize. unfold size_t_sub in Hd.
    destruct (FieldRef.numParts (boundPath m matchedField)) as [|n] eqn:En.
    - exfalso. unfold findLongestPrefix in Hf. rewrite En in Hf.
      rewrite orb_true_r in Hf. discriminate Hf.
    - rewrite Z.mod_small in Hd by lia. lia. }
  rewrite Hidx, He in Hf.
  pose proof (findLongestPrefix_stable doc (nulled doc pp k) pp k _ root 0 End
                (nulled_agreeAt doc pp k) Hf) as Hf'.
  rewrite (prepare_bound _ _ _ _ ex2 _ _ _ Hmm Hf'). cbv zeta. simpl.
  assert (Hd' : ModifierDiff.destExists
                  (ModifierDiff.mk (boundPath m matchedField)
                     (ModifierDiff._pathReplacementPosition m) (ModifierDiff._val m)
                     (Some (ModifierDiff.newPreparedState (nulled doc pp k))))
                  (FieldRef.numParts (boundPath m matchedField) - 1)
                  (At (pp ++ [k])) = true).
  { rewrite <- Hd, Hidx, He. unfold ModifierDiff.destExists. simpl.
    rewrite Hpath. reflexivity. }
  rewrite Hd'. simpl.
  rewrite (compare_attached _ _ _ _ (resolve_nulled_child _ _ _ _ Hx)). simpl.
  do 3 eexists. split; [reflexivity|]. simpl. split; [reflexivity|].
  split; [symmetry; exact He|].
  destruct (ModifierDiff._val m) as [tn tv]. simpl.
  rewrite negb_true_iff, Z.eqb_neq. unfold fieldName.
  rewrite woCompare_null. reflexivity.
Qed.

Lemma rerun_on_array_element_witness :
  exists (m2 : ModifierDiff.t) (ex2' : ModifierDiff.ExecInfo)
         (ps2 : ModifierDiff.PreparedState),
    ModifierDiff.prepare (Examples.modifierFor "a.1" (VInt 2))
      (nulled Examples.docArr [0%nat] 1) (At []) EmptyString Examples.noExecInfo =
    Returns (OK, m2, ex2') /\
    ModifierDiff._preparedState m2 = Some ps2 /\
    ModifierDiff.elemFound ps2 = At [0; 1]%nat /\
    (ModifierDiff.noOp ps2 = true <-> typeOf (VInt 2) <> jstNULL).
Proof.
  apply (rerun_on_array_element true (Examples.modifierFor "a.1" (VInt 2))
           Examples.docArr (nulled Examples.docArr [0%nat] 1) (At []) EmptyString
           Examples.noExecInfo Examples.noExecInfo
           (ModifierDiff.mk ["a"; "1"] 0 ("a.1", VInt 2)
              (Some (ModifierDiff.mkPreparedState 1 (At [0; 1]%nat) false)))
           (ModifierDiff.mkExecInfo (Some ["a"; "1"]) false)
           (ModifierDiff.mkPreparedState 1 (At [0; 1]%nat) false)).
  - vm_compute. reflexivity.
  - reflexivity.
  - reflexivity.
  - vm_compute. reflexivity.
  - vm_compute. reflexivity.
  - vm_compute. reflexivity.
Defined.

(** A walk over two runs of parts is the walk over the second run from
    where the first one ended, when the first one took all its parts. *)
Lemma walk_app (d : Document) (p1 p2 : list string) :
  forall (i : nat) (curr prev : Element) (i1 : nat) (curr1 prev1 : Element),
    walk d p1 i curr prev = (i1, curr1, prev1, true) ->
    ok curr1 = true ->
    walk d (p1 ++ p2) i curr prev = walk d p2 i1 curr1 prev1.
Proof.
  induction p1 as [|part rest IH]; intros i curr prev i1 curr1 prev1; simpl.
  - intros [= <- <- <-] _. reflexivity.
  - destruct (match getType d curr with
              | Object => (findFirstChildNamed d curr part, true)
              | Array =>
                  match isNumeric part with
                  | Some n => (findNthChild d curr n, true)
                  | None => (curr, false)
                  end
              | _ => (curr, false)
              end) as [next viable].
    destruct (negb (ok next) || negb viable)%bool eqn:Hx.
    + intros [= <- <- <- ->] Hok. rewrite Hok in Hx. discriminate Hx.
    + apply IH.
Qed.

Lemma walk_split (d : Document) (p1 p2 : list string) :
  forall (i : nat) (curr prev : Element) (i' : nat) (curr' prev' : Element),
    walk d (p1 ++ p2) i curr prev = (i', curr', prev', true) ->
    ok curr' = true -> ok curr = true ->
    exists (i1 : nat) (curr1 prev1 : Element),
      walk d p1 i curr prev = (i1, curr1, prev1, true) /\
      ok curr1 = true /\
      walk d p2 i1 curr1 prev1 = (i', curr', prev', true).
Proof.
  induction p1 as [|part rest IH]; intros i curr prev i' curr' prev'; simpl.
  - intros Hw _ Hc. exists i, curr, prev. auto.
  - destruct (match getType d curr with
              | Object => (findFirstChildNamed d curr part, true)
              | Array =>
                  match isNumeric part with
                  | Some n => (findNthChild d curr n, true)
                  | None => (curr, false)
                  end
              | _ => (curr, false)
              end) as [next viable].
    destruct (negb (ok next) || negb viable)%bool eqn:Hx.
    + intros [= <- <- <- ->] Hok _. rewrite Hok in Hx. discriminate Hx.
    + intros Hw Hok _. apply orb_false_iff in Hx as [Hx _].
      apply negb_false_iff in Hx. exact (IH _ _ _ _ _ _ Hw Hok Hx).
Qed.

Lemma indexOfName_Some (name : string) (kids : list BSONElement) :
  forall i : nat,
    indexOfName name kids = Some i ->
    exists c : BSONElement, kids !! i = Some c /\ fst c = name.
Proof.
  induction kids as [|[k0 v0] kids IH]; simpl; intros i; [discriminate|].
  destruct (String.eqb_spec k0 name) as [E|E].
  - intros [= <-]. exists (k0, v0). auto.
  - destruct (indexOfName name kids) as [j|]; simpl; [|discriminate].
    intros [= <-]. simpl. apply IH. reflexivity.
Qed.

Lemma indexOfName_delete_unique (name : string) (kids : list BSONElement) (k : nat) :
  (forall j c, kids !! j = Some c -> fst c = name -> j = k) ->
  indexOfName name (delete k kids) = None.
Proof.
  intros Hu. destruct (indexOfName name (delete k kids)) as [i|] eqn:E; [|reflexivity].
  exfalso. destruct (indexOfName_Some _ _ _ E) as (c & Hc & Hn).
  destruct (Nat.lt_ge_cases i k) as [Hlt|Hge].
  - rewrite list_lookup_delete_lt in Hc by exact Hlt.
    pose proof (Hu _ _ Hc Hn). lia.
  - rewrite list_lookup_delete_ge in Hc by exact Hge.
    pose proof (Hu _ _ Hc Hn). lia.
Qed.

Lemma detached_agreeAt (doc : Document) (pp : list nat) (k : nat) :
  forall c rest, rest <> [] -> pp = c ++ rest -> agreeAt doc (detached doc pp k) c.
Proof.
  intros c [|i rest] Hne -> e He; [congruence|].
  unfold detached, resolve in *. simpl.
  rewrite (lookupFrom_alterAt_spine _ _ _ _ _ _ He).
  eexists. split; [reflexivity|]. simpl. split.
  - apply typeOf_withChildren.
  - destruct (snd e); simpl; try reflexivity; apply map_fst_alter; reflexivity.
Qed.

#[local] Arguments findFirstChildNamed : simpl never.
#[local] Arguments findNthChild : simpl never.
#[local] Arguments getType : simpl never.
#[local] Arguments resolve : simpl never.

(** The locator found the whole path: what its walk did. *)
Lemma findLongestPrefix_full_inv (doc : Document) (prefix : FieldRef.t) (root : Element)
    (i0 : nat) (e0 : Element) (t : list nat) :
  findLongestPrefix prefix doc root i0 e0 =
    (OK, (FieldRef.numParts prefix - 1)%nat, At t) ->
  exists (r : list nat) (prev : Element),
    root = At r /\ is_Some (resolve doc (At r)) /\ prefix <> [] /\
    walk doc prefix 0 (At r) (At r) = (length prefix, At t, prev, true).
Proof.
  unfold findLongestPrefix.
  destruct (hasChildren doc root) eqn:Hc; simpl; [|intros [=]].
  destruct (Nat.eqb (FieldRef.numParts prefix) 0) eqn:Hn; [intros [=]|].
  apply Nat.eqb_neq in Hn.
  destruct (walk doc prefix 0 root root) as [[[i curr] prev] viable] eqn:Hw.
  destruct (Nat.eqb i 0) eqn:Hi; [intros [=]|].
  apply Nat.eqb_neq in Hi.
  destruct viable; simpl; [|intros [=]].
  destruct root as [|r]; [discriminate Hc|].
  assert (Hr : is_Some (resolve doc (At r))).
  { unfold hasChildren in Hc. destruct (resolve doc (At r)); [eauto | discriminate]. }
  destruct (walk_index _ _ _ _ _ _ _ _ _ Hw eq_refl) as [Hall Hpart].
  unfold FieldRef.numParts in *.
  destruct (ok curr) eqn:Hok.
  - intros [= Hidx ->]. simpl in Hall. specialize (Hall eq_refl). simpl in Hall.
    subst i. exists r, prev. split; [reflexivity|]. split; [exact Hr|].
    split; [intros ->; apply Hn; reflexivity | exact Hw].
  - intros [= Hidx _]. simpl in Hpart. specialize (Hpart eq_refl).
    simpl in Hpart. lia.
Qed.

(** After the field at [pp ++ [k]] of an object has been taken out, and if
    no other field of that object has its name, the locator no longer finds
    the whole path: the path does not exist, or it ends on the parent. *)
Lemma findLongestPrefix_after_detach (doc : Document) (pp : list nat) (k : nat)
    (pa x : BSONElement) (prefix : FieldRef.t) (root : Element) :
  resolve doc (At pp) = Some pa ->
  childrenOf (value pa) !! k = Some x ->
  typeOf (value pa) = Object ->
  (forall j c, childrenOf (value pa) !! j = Some c -> fst c = fst x -> j = k) ->
  findLongestPrefix prefix doc root 0 End =
    (OK, (FieldRef.numParts prefix - 1)%nat, At (pp ++ [k])) ->
  findLongestPrefix prefix (detached doc pp k) root 0 End = (NonExistentPath, 0%nat, End) \/
  (2 <= FieldRef.numParts prefix)%nat /\
  findLongestPrefix prefix (detached doc pp k) root 0 End =
    (OK, (FieldRef.numParts prefix - 2)%nat, At pp).
Proof.
  intros Hpa Hk Hobj Huniq Hf.
  destruct (findLongestPrefix_full_inv _ _ _ _ _ _ Hf) as (r & prev & -> & Hr & Hne & Hw).
  destruct (@exists_last _ prefix Hne) as (init & last & ->).
  destruct (walk_split _ _ _ _ _ _ _ _ _ Hw eq_refl eq_refl)
    as (i1 & curr1 & prev1 & Hw1 & Hok1 & Hw2).
  destruct curr1 as [|c1]; [discriminate Hok1|].
  destruct (walk_index _ _ _ _ _ _ _ _ _ Hw1 eq_refl) as [Hi1 _].
  specialize (Hi1 eq_refl). simpl in Hi1. subst i1.
  destruct (walk_extends _ _ _ _ _ _ _ _ Hw2) as (q & Ht & Hl).
  rewrite length_app in Hl. simpl in Hl.
  destruct q as [|a [|? ?]]; simpl in Hl; try lia.
  apply app_inj_tail in Ht as [<- <-].
  (* the last step, in the document as it was *)
  assert (Hlast : indexOfName last (childrenOf (value pa)) = Some k).
  { simpl in Hw2. unfold getType in Hw2. rewrite Hpa, Hobj in Hw2.
    unfold findFirstChildNamed in Hw2. rewrite Hpa in Hw2.
    destruct (indexOfName last (childrenOf (value pa))) as [j|]; simpl in Hw2;
      [|discriminate Hw2].
    injection Hw2 as _ Hj _. apply app_inj_tail in Hj as [_ ->]. reflexivity. }
  assert (Hname : fst x = last).
  { destruct (indexOfName_Some _ _ _ Hlast) as (c & Hc & Hn).
    rewrite Hk in Hc. injection Hc as <-. exact Hn. }
  (* the walk up to the parent is the same in the new document *)
  assert (Hw1' : walk (detached doc pp k) init 0 (At r) (At r) =
                 (length init, At pp, prev1, true)).
  { destruct init as [|p0 init0].
    - simpl in *. exact Hw1.
    - destruct (walk_extends _ _ _ _ _ _ _ _ Hw1) as (q0 & Hq0 & Hl0).
      simpl in Hl0.
      destruct (@exists_last _ q0) as (pp0 & k0 & E);
        [intros ->; discriminate Hl0|].
      rewrite E, app_assoc in Hq0. subst pp.
      apply (walk_stable doc (detached doc ((r ++ pp0) ++ [k0]) k) (r ++ pp0) k0
               (p0 :: init0)); [|exact Hr | exact Hw1].
      intros c rest Hc.
      apply (detached_agreeAt doc ((r ++ pp0) ++ [k0]) k c (rest ++ [k0])).
      * destruct rest; discriminate.
      * rewrite Hc, <- app_assoc. reflexivity. }
  (* the last step, in the new document *)
  assert (Hw2' : walk (detached doc pp k) [last] (length init) (At pp) prev1 =
                 (length init, End, At pp, true)).
  { simpl. unfold getType. rewrite (resolve_detached _ _ k _ Hpa). simpl.
    rewrite typeOf_withChildren, Hobj.
    unfold findFirstChildNamed. rewrite (resolve_detached _ _ k _ Hpa). simpl.
    rewrite (childrenOf_withChildren (value pa) _ k x Hk).
    rewrite indexOfName_delete_unique; [reflexivity|].
    intros j c Hc Hn. apply (Huniq j c Hc). rewrite Hn. symmetry. exact Hname. }
  pose proof (walk_app _ _ [last] _ _ _ _ _ _ Hw1' eq_refl) as Hwhole.
  rewrite Hw2' in Hwhole.
  unfold findLongestPrefix, FieldRef.numParts. rewrite Hwhole, length_app. simpl.
  destruct (hasChildren (detached doc pp k) (At r)); simpl; [|left; reflexivity].
  replace (Nat.eqb (length init + 1) 0) with false
    by (symmetry; apply Nat.eqb_neq; lia).
  destruct (Nat.eqb (length init) 0) eqn:Hz; [left; reflexivity|].
  apply Nat.eqb_neq in Hz. right. split; [lia|].
  replace (length init + 1 - 2)%nat with (length init - 1)%nat by lia. reflexivity.
Qed.

(** X15. Running the modifier again after it took a field out of an
    object. If no other field of that object has the name of the field that
    was removed, a second [prepare] with the same path on the resulting
    document succeeds and decides no-op. *)
Theorem rerun_after_object_removal (kDebugBuild : bool) (m : ModifierDiff.t)
    (doc doc' : Document) (root : Element) (matchedField : string)
    (ex ex2 : ModifierDiff.ExecInfo) (m' : ModifierDiff.t)
    (ex' : ModifierDiff.ExecInfo) (ps : ModifierDiff.PreparedState)
    (pp : list nat) (k : nat) (pa x : BSONElement) :
  ModifierDiff.prepare m doc root matchedField ex = Returns (OK, m', ex') ->
  ModifierDiff._preparedState m' = Some ps ->
  ModifierDiff.noOp ps = false ->
  Z.of_nat (FieldRef.numParts (ModifierDiff._updatePath m')) < 2 ^ 64 ->
  ModifierDiff.elemFound ps = At (pp ++ [k]) ->
  resolve doc (At pp) = Some pa ->
  childrenOf (value pa) !! k = Some x ->
  typeOf (value pa) = Object ->
  (forall j c, childrenOf (value pa) !! j = Some c -> fst c = fst x -> j = k) ->
  ModifierDiff.apply kDebugBuild m' doc = Returns (OK, doc') ->
  exists (m2 : ModifierDiff.t) (ex2' : ModifierDiff.ExecInfo)
         (ps2 : ModifierDiff.PreparedState),
    ModifierDiff.prepare m doc' root matchedField ex2 = Returns (OK, m2, ex2') /\
    ModifierDiff._preparedState m2 = Some ps2 /\
    ModifierDiff.noOp ps2 = true /\
    ModifierDiff.execNoOp ex2' = true.
Proof.
  intros Hp Hps Hn Hsize He Hpa Hk Hobj Huniq Hap.
  assert (Hx : resolve doc (At (pp ++ [k])) = Some x)
    by (apply (resolve_child _ _ _ _ _ Hpa); exact Hk).
  destruct (prepare_OK_inv _ _ _ _ _ _ _ Hp) as (ps' & Hps' & H).
  rewrite Hps in Hps'. injection Hps' as <-.
  destruct H as [[_ H]|(pp1 & k1 & x1 & _ & _ & Hno)]; [congruence|].
  rewrite Hn in Hno.
  destruct (ModifierDiff.destExists m' _ _) eqn:Hd; [|discriminate Hno].
  destruct (prepare_locator_answer _ _ _ _ _ _ _ _ Hp Hps Hd) as (Hmm & Hpath & Hf).
  rewrite (apply_attached _ _ _ _ Hx _ _ _ Hps He Hn) in Hap.
  rewrite (isType_resolve _ _ _ _ Hpa), Hobj in Hap. simpl in Hap.
  injection Hap as <-.
  rewrite Hpath in Hsize.
  assert (Hidx : ModifierDiff.idxFound ps =
                 (FieldRef.numParts (boundPath m matchedField) - 1)%nat).
  { unfold ModifierDiff.destExists in Hd. apply andb_true_iff in Hd as [_ Hd].
    apply Z.eqb_eq in Hd. rewrite Hpath in Hd. unfold size_t_sub in Hd.
    destruct (FieldRef.numParts (boundPath m matchedField)) as [|n] eqn:En.
    - exfalso. unfold findLongestPrefix in Hf. rewrite En in Hf.
      rewrite orb_true_r in Hf. discriminate Hf.
    - rewrite Z.mod_small in Hd by lia. lia. }
  rewrite Hidx, He in Hf.
  destruct (findLongestPrefix_after_detach _ _ _ _ _ _ _ Hpa Hk Hobj Huniq Hf)
    as [Hf' | [Hlen Hf']];
    rewrite (prepare_bound _ _ _ _ ex2 _ _ _ Hmm Hf'); cbv zeta; simpl.
  - unfold ModifierDiff.destExists. simpl.
    do 3 eexists. split; [reflexivity|]. simpl. auto.
  - assert (Hd' : ModifierDiff.destExists
                    (ModifierDiff.mk (boundPath m matchedField)
                       (ModifierDiff._pathReplacementPosition m) (ModifierDiff._val m)
                       (Some (ModifierDiff.newPreparedState (detached doc pp k))))
                    (FieldRef.numParts (boundPath m matchedField) - 2)
                    (At pp) = false).
    { unfold ModifierDiff.destExists. simpl. apply Z.eqb_neq.
      unfold size_t_sub. rewrite Z.mod_small by lia. lia. }
    rewrite Hd'. simpl.
    do 3 eexists. split; [reflexivity|]. simpl. auto.
Qed.

Lemma rerun_after_object_removal_witness :
  exists (m2 : ModifierDiff.t) (ex2' : ModifierDiff.ExecInfo)
         (ps2 : ModifierDiff.PreparedState),
    ModifierDiff.prepare (Examples.modifierFor "a.b" (VInt 5))
      (detached Examples.docAB [0%nat] 0) (At []) EmptyString Examples.noExecInfo =
    Returns (OK, m2, ex2') /\
    ModifierDiff._preparedState m2 = Some ps2 /\
    ModifierDiff.noOp ps2 = true /\
    ModifierDiff.execNoOp ex2' = true.
Proof.
  apply (rerun_after_object_removal true (Examples.modifierFor "a.b" (VInt 5))
           Examples.docAB (detached Examples.docAB [0%nat] 0) (At []) EmptyString
           Examples.noExecInfo Examples.noExecInfo
           (ModifierDiff.mk ["a"; "b"] 0 ("a.b", VInt 5)
              (Some (ModifierDiff.mkPreparedState 1 (At [0; 0]%nat) false)))
           (ModifierDiff.mkExecInfo (Some ["a"; "b"]) false)
           (ModifierDiff.mkPreparedState 1 (At [0; 0]%nat) false)
           [0%nat] 0%nat ("a", VObject [("b", VInt 5)]) ("b", VInt 5)).
  - vm_compute. reflexivity.
  - reflexivity.
  - reflexivity.
  - vm_compute. reflexivity.
  - reflexivity.
  - reflexivity.
  - reflexivity.
  - reflexivity.
  - intros [|j] c; simpl; [reflexivity|].
    destruct j; discriminate.
  - vm_compute. reflexivity.
Defined.

End Rerun.

(** ** Logging, validation and assertions, case by case *)

Section Outcomes.

Import mutablebson storage_validation.

#[local] Arguments parent : simpl never.
#[local] Arguments remove : simpl never.
#[local] Arguments setValueNull : simpl never.
#[local] Arguments isType : simpl never.

(** X16. Both conventions write the same log entry: with the same path
    and a builder that accepts entries, [ModifierDiff::log] and
    [DiffNode::logUpdate] leave the same builder, with that one path added
    after the entries it had. They part when the builder refuses: [log]
    returns the refusal as a status, [logUpdate] throws it; in both cases the
    builder is as it was. *)
Theorem both_conventions_log_the_same_entry (m : ModifierDiff.t) (lb : LogBuilder.t)
    (node : DiffNode.t) (element : Element) :
  (LogBuilder.accepting lb = true ->
   exists lb' : LogBuilder.t,
     ModifierDiff.log m lb = Returns (OK, lb') /\
     DiffNode.logUpdate node (Some lb)
       (FieldRef.dottedField (ModifierDiff._updatePath m)) element
       DiffNode.kNormalUpdate = Returns lb' /\
     LogBuilder.unsets lb' =
       LogBuilder.unsets lb ++ [FieldRef.dottedField (ModifierDiff._updatePath m)]) /\
  (LogBuilder.accepting lb = false ->
   exists st : Status,
     isOK st = false /\
     ModifierDiff.log m lb = Returns (st, lb) /\
     DiffNode.logUpdate node (Some lb)
       (FieldRef.dottedField (ModifierDiff._updatePath m)) element
       DiffNode.kNormalUpdate = Throws st).
Proof.
  unfold ModifierDiff.log, DiffNode.logUpdate, LogBuilder.addToUnsets.
  split; intros ->; simpl.
  - eexists. split; [reflexivity|]. split; reflexivity.
  - exists IllegalOperation. split; [reflexivity|]. split; reflexivity.
Qed.

Lemma both_conventions_log_the_same_entry_witness :
  exists lb' : LogBuilder.t,
    ModifierDiff.log (ModifierDiff.mk ["a"; "2"; "b"] 1 ("a.$.b", VInt 9) None)
      (LogBuilder.mk ["x"] true) = Returns (OK, lb') /\
    DiffNode.logUpdate (DiffNode.mk ("a.$.b", VInt 9)) (Some (LogBuilder.mk ["x"] true))
      (FieldRef.dottedField ["a"; "2"; "b"]) (At [0; 2; 0]%nat)
      DiffNode.kNormalUpdate = Returns lb' /\
    LogBuilder.unsets lb' = ["x"] ++ [FieldRef.dottedField ["a"; "2"; "b"]].
Proof.
  apply (proj1 (both_conventions_log_the_same_entry
                  (ModifierDiff.mk ["a"; "2"; "b"] 1 ("a.$.b", VInt 9) None)
                  (LogBuilder.mk ["x"] true) (DiffNode.mk ("a.$.b", VInt 9))
                  (At [0; 2; 0]%nat))).
  reflexivity.
Defined.

(** X17. [DiffNode::validateUpdate] reports the first sibling that the
    validator refuses: a refused left sibling is thrown before the right
    sibling is looked at; the right sibling is validated, and its refusal
    thrown, only after the left one has passed or when there is none. *)
Theorem validateUpdate_reports_first_refused_sibling (rules : Call -> Status)
    (node : DiffNode.t) (updatedElement leftSibling rightSibling : Element)
    (recursionLevel : nat) (calls : list Call) :
  (ok leftSibling = true ->
   isOK (rules (mkCall leftSibling false 0)) = false ->
   DiffNode.validateUpdate rules node updatedElement leftSibling rightSibling
     recursionLevel DiffNode.kNormalUpdate calls =
   (Throws (rules (mkCall leftSibling false 0)),
    calls ++ [mkCall leftSibling false 0])) /\
  (ok rightSibling = true ->
   (ok leftSibling = true -> isOK (rules (mkCall leftSibling false 0)) = true) ->
   isOK (rules (mkCall rightSibling false 0)) = false ->
   DiffNode.validateUpdate rules node updatedElement leftSibling rightSibling
     recursionLevel DiffNode.kNormalUpdate calls =
   (Throws (rules (mkCall rightSibling false 0)),
    calls ++ adjacentSiblingChecks leftSibling rightSibling)).
Proof.
  unfold DiffNode.validateUpdate, adjacentSiblingChecks, vbind, lift, vret,
    storageValid, uassertStatusOK.
  split.
  - intros -> Hl. simpl. rewrite Hl. reflexivity.
  - intros -> Hl Hr. simpl. destruct (ok leftSibling); simpl.
    + rewrite (Hl eq_refl), Hr, <- app_assoc. reflexivity.
    + rewrite Hr. reflexivity.
Qed.

Lemma validateUpdate_reports_first_refused_sibling_witness :
  DiffNode.validateUpdate (fun _ => BadValue) (DiffNode.mk ("a.1", VInt 2))
    (At [0; 1]%nat) (At [0; 0]%nat) (At [0; 2]%nat) 2 DiffNode.kNormalUpdate [] =
  (Throws BadValue, [] ++ [mkCall (At [0; 0]%nat) false 0]).
Proof.
  apply (proj1 (validateUpdate_reports_first_refused_sibling (fun _ => BadValue)
                  (DiffNode.mk ("a.1", VInt 2)) (At [0; 1]%nat) (At [0; 0]%nat)
                  (At [0; 2]%nat) 2 [])); reflexivity.
Defined.

(** X18. On an element of the document,
    [DiffNode::updateExistingElement] aborts in one case only: the element
    compares equal to the target and has no parent. It never throws; on an
    element with a parent, the statuses of the tree primitives never trip
    [invariantOK]. *)
Theorem updateExistingElement_aborts_only_on_parentless_match (node : DiffNode.t)
    (doc : Document) (element : Element) (elementPath : FieldRef.t) (x : BSONElement) :
  resolve doc element = Some x ->
  (DiffNode.updateExistingElement node doc element elementPath = Aborts <->
   woCompare x (DiffNode._val node) false None = 0 /\ parent element = End) /\
  (forall st : Status,
     DiffNode.updateExistingElement node doc element elementPath <> Throws st).
Proof.
  intros Hx. destruct element as [|p]; [discriminate Hx|].
  destruct p as [|a p] using rev_ind.
  - unfold DiffNode.updateExistingElement, compareWithBSONElement.
    rewrite Hx. simpl.
    destruct (Z.eqb_spec (woCompare x (DiffNode._val node) false None) 0) as [E|E];
      simpl.
    + split; [split; auto | discriminate].
    + split; [|discriminate]. split; [discriminate|]. intros [H _]. contradiction.
  - clear IHp. rewrite (updateExistingElement_attached _ _ _ _ Hx), parent_snoc.
    destruct (Z.eqb_spec (woCompare x (DiffNode._val node) false None) 0) as [E|E];
      simpl.
    + destruct (isType doc (At p) Array); (split; [|discriminate]);
        split; try discriminate; intros [_ H]; discriminate H.
    + split; [|discriminate]. split; [discriminate|]. intros [H _]. contradiction.
Qed.

Lemma updateExistingElement_aborts_only_on_parentless_match_witness :
  DiffNode.updateExistingElement (DiffNode.mk (EmptyString, VObject []))
    Examples.docEmpty (At []) [] = Aborts <->
  woCompare (EmptyString, VObject []) (EmptyString, VObject []) false None = 0 /\
  parent (At []) = End.
Proof.
  apply (updateExistingElement_aborts_only_on_parentless_match
           (DiffNode.mk (EmptyString, VObject [])) Examples.docEmpty (At []) []
           (EmptyString, VObject [])).
  reflexivity.
Defined.

End Outcomes.

(** ** The two conventions side by side *)

Section TwoConventions.

Import mutablebson.

#[local] Arguments parent : simpl never.
#[local] Arguments isType : simpl never.






End TwoConventions.
